(** * Fire lookout: azimuth-to-screen projection, terrain sampling,
      spawning and report resolution of [minimal_version.py]

    The program is a single Python module built around a pygame frame loop.
    This development embeds its state-carrying part:

    - Python [float] is IEEE-754 binary64; it is represented by the
      Standard Library's [spec_float] with precision 53 and maximal
      exponent 1024, so that every rounding of the source is performed.
    - Python [int] is [Z]; [%] on a positive modulus is [Z.modulo].
    - A fire's lifetime, half an integer at worst, is kept as the exact
      rational [Q].
    - The module-level globals ([fires], [reports], [player_azimuth], ...)
      form the record [World]; the assets fixed at start-up (weather and the
      two terrain masks) form the record [Assets].
    - [random] is a stream of raw draws consumed in program order.
    - [print] appends to the [stdout] field of the world. *)

From Stdlib Require Import ZArith QArith Qround List Bool Lia Lqa.
From Stdlib Require Import SpecFloat.
Import ListNotations.
Local Open Scope Z_scope.

(** ** Python numbers *)

Module PyFloat.

Definition prec : Z := 53.
Definition emax : Z := 1024.

(** [float(n)] for an [int]: correctly rounded, exact below [2^53]. *)
Definition float_of_int (n : Z) : spec_float :=
  binary_normalize prec emax n 0 false.

Definition fadd : spec_float -> spec_float -> spec_float := SFadd prec emax.
Definition fmul : spec_float -> spec_float -> spec_float := SFmul prec emax.
Definition fdiv : spec_float -> spec_float -> spec_float := SFdiv prec emax.
Definition fsqrt : spec_float -> spec_float := SFsqrt prec emax.
Definition flt : spec_float -> spec_float -> bool := SFltb.
Definition fgt (a b : spec_float) : bool := SFltb b a.

(** A decimal literal [num/den] written in the source ([0.5], [0.7], ...):
    the double nearest to the quotient. *)
Definition literal (num den : Z) : spec_float :=
  fdiv (float_of_int num) (float_of_int den).

(** [int(f)]: truncation toward zero.  CPython raises on infinities and
    NaN; no such value arises from the bounded operands of this program,
    and the model returns [0] there. *)
Definition int_of_float (f : spec_float) : Z :=
  match f with
  | S754_finite s m e =>
      cond_Zopp s
        match e with
        | Zneg p => Z.shiftr (Zpos m) (Zpos p)
        | _ => Z.shiftl (Zpos m) e
        end
  | _ => 0
  end.

(** [math.floor(f)]: the rounding the specification writes as [floor]. *)
Definition floor_of_float (f : spec_float) : Z :=
  match f with
  | S754_finite s m e =>
      match e with
      | Zneg p => Z.shiftr (cond_Zopp s (Zpos m)) (Zpos p)
      | _ => cond_Zopp s (Z.shiftl (Zpos m) e)
      end
  | _ => 0
  end.

(** The rational number a finite double denotes. *)
Definition float_value (f : spec_float) : Q :=
  match f with
  | S754_finite s m e =>
      match e with
      | Zneg p => Qmake (cond_Zopp s (Zpos m)) (Z.to_pos (2 ^ Zpos p))
      | _ => inject_Z (cond_Zopp s (Z.shiftl (Zpos m) e))
      end
  | _ => 0%Q
  end.

(** Doubles other than the negative finite ones. *)
Definition not_negative (f : spec_float) : bool :=
  match f with
  | S754_finite true _ _ => false
  | _ => true
  end.

(** Rounding a rational toward zero. *)
Definition Qtrunc (q : Q) : Z := Z.quot (Qnum q) (Zpos (Qden q)).

(** Negative rationals that are not integers: where truncation and floor
    differ. *)
Definition negative_fraction (q : Q) : bool :=
  (Qnum q <? 0) && negb (Qnum q mod Zpos (Qden q) =? 0).

End PyFloat.
Import PyFloat.

(** ** Constants of the module *)

Definition SCREEN_WIDTH : Z := 800.
Definition SCREEN_HEIGHT : Z := 600.
Definition FOV : Z := 150.

(** ** Weather, surfaces and the assets fixed at start-up *)

(** [weather_conditions = ["Clear", "Rainy", "Windy", "Hot"]]. *)
Inductive Weather := Clear | Rainy | Windy | Hot.

(** A pygame surface as the program reads it: its size and its pixels.
    [pixel] is only consulted inside the bounds, through [get_at].  A
    surface loaded from an image file, or the 800 x 600 fallback, has a
    positive width, so the [% mask_width] of the source never divides by
    zero. *)
Record Surface := {
  get_width : Z;
  get_height : Z;
  pixel : Z -> Z -> Z * Z * Z
}.

(** [surface.get_at((x, y))]: [None] stands for the [IndexError] pygame
    raises outside the surface. *)
Definition get_at (s : Surface) (x y : Z) : option (Z * Z * Z) :=
  if (0 <=? x) && (x <? get_width s) && (0 <=? y) && (y <? get_height s)
  then Some (pixel s x y)
  else None.

(** The surface [load_image]/[load_mask] substitute for a missing file. *)
Definition fallback_surface (color : Z * Z * Z) : Surface :=
  {| get_width := 800; get_height := 600; pixel := fun _ _ => color |}.

(** The weather drawn at start-up and the two terrain masks.  The
    backgrounds and sprites only feed the screen and are left out. *)
Record Assets := {
  weather : Weather;
  background_mid_mask : Surface;
  background_far_mask : Surface
}.

(** [range(n)]. *)
Definition range (n : Z) : list Z := map Z.of_nat (seq 0 (Z.to_nat n)).

(** [brightness = (pixel[0] + pixel[1] + pixel[2]) / 3] and the test
    [brightness < 200] both loops apply to a mask pixel. *)
Definition brightness (p : Z * Z * Z) : spec_float :=
  let '(r, g, b) := p in fdiv (float_of_int (r + g + b)) (float_of_int 3).

Definition is_terrain_pixel (p : Z * Z * Z) : bool :=
  flt (brightness p) (float_of_int 200).

(** ** Random draws *)

(** The generator is a stream of raw draws and a cursor; [randint a b]
    lands in [[a, b]], both ends included, as [random.randint] does. *)
Record Rng := { draws : nat -> Z; cursor : nat }.

Definition next_raw (r : Rng) : Z * Rng :=
  (draws r (cursor r), {| draws := draws r; cursor := S (cursor r) |}).

Definition randint (a b : Z) (r : Rng) : Z * Rng :=
  let (x, r') := next_raw r in (a + x mod (b - a + 1), r').

Definition choice (l : list Z) (r : Rng) : Z * Rng :=
  let (x, r') := next_raw r in
  (nth (Z.to_nat (x mod Z.of_nat (length l))) l 0, r').

(** ** class Fire *)

Inductive Layer := far | mid.

Definition Layer_eqb (a b : Layer) : bool :=
  match a, b with
  | far, far | mid, mid => true
  | _, _ => false
  end.

(** [lifetime] is an [int] in clear weather and a [float] otherwise; the
    products [base * 0.5], [base * 1.5], [base * 2.0] are exact in binary64
    for the integers the spawner draws, so the field holds the rational they
    denote and [is_expired] compares exactly, as CPython compares an [int]
    with a [float]. *)
Record Fire := {
  azimuth : Z;
  distance : Z;
  layer : Layer;
  reported : bool;
  terrain_offset : Z;
  lifetime : Q;
  spawn_time : Z
}.

Definition set_reported (f : Fire) (b : bool) : Fire :=
  {| azimuth := azimuth f; distance := distance f; layer := layer f;
     reported := b; terrain_offset := terrain_offset f;
     lifetime := lifetime f; spawn_time := spawn_time f |}.

(** [Fire.__init__(azimuth, distance, base_lifetime)]; [now] is the reading
    of [pygame.time.get_ticks()], the sprite images are left out. *)
Definition Fire_init (A : Assets) (now : Z) (azimuth distance base_lifetime : Z)
    (r : Rng) : Fire * Rng :=
  let layer := if 150 <? distance then far else mid in
  let (terrain_offset, r') := randint 0 80 r in
  let lifetime :=
    match weather A with
    | Rainy => (inject_Z base_lifetime * (1 # 2))%Q
    | Windy => (inject_Z base_lifetime * (3 # 2))%Q
    | Hot => (inject_Z base_lifetime * 2)%Q
    | Clear => inject_Z base_lifetime
    end in
  ({| azimuth := azimuth; distance := distance; layer := layer;
      reported := false; terrain_offset := terrain_offset;
      lifetime := lifetime; spawn_time := now |}, r').

(** [Fire.is_expired()], with [now] the clock reading. *)
Definition is_expired (self : Fire) (now : Z) : bool :=
  negb (Qle_bool (inject_Z (now - spawn_time self)) (lifetime self)).

(** The [for y in range(mask_height)] loop of
    [get_terrain_height_at_screen_x]. *)
Fixpoint terrain_height_loop (self : Fire) (mask : Surface) (mask_x : Z)
    (ys : list Z) : option Z :=
  match ys with
  | [] => None
  | y :: rest =>
      match get_at mask mask_x y with
      | Some pixel =>
          if is_terrain_pixel pixel then
            let base_screen_y :=
              int_of_float
                (fmul (fdiv (float_of_int y) (float_of_int (get_height mask)))
                      (float_of_int SCREEN_HEIGHT)) in
            Some (base_screen_y + terrain_offset self)
          else terrain_height_loop self mask mask_x rest
      | None => terrain_height_loop self mask mask_x rest
      end
  end.

(** [parallax_offset = int((player_azimuth / 360) * mask_width * 1) %
    mask_width]. *)
Definition parallax_offset (player_azimuth mask_width : Z) : Z :=
  int_of_float
    (fmul (fmul (fdiv (float_of_int player_azimuth) (float_of_int 360))
                (float_of_int mask_width))
          (float_of_int 1))
  mod mask_width.

(** The mask column [get_terrain_height_at_screen_x] samples. *)
Definition screen_x_mask_column (screen_x : Z) (mask : Surface)
    (player_azimuth : Z) : Z :=
  let mask_width := get_width mask in
  if mask_width <=? SCREEN_WIDTH then
    int_of_float
      (fmul (fdiv (float_of_int screen_x) (float_of_int SCREEN_WIDTH))
            (float_of_int mask_width))
    mod mask_width
  else
    (parallax_offset player_azimuth mask_width + screen_x) mod mask_width.

Definition get_terrain_height_at_screen_x (self : Fire) (screen_x : Z)
    (mask : Surface) (player_azimuth : Z) : Z :=
  let mask_x := screen_x_mask_column screen_x mask player_azimuth in
  match terrain_height_loop self mask mask_x (range (get_height mask)) with
  | Some screen_y => screen_y
  | None =>
      match layer self with
      | far =>
          int_of_float (fmul (float_of_int SCREEN_HEIGHT) (literal 7 10))
          + terrain_offset self
      | mid =>
          int_of_float (fmul (float_of_int SCREEN_HEIGHT) (literal 85 100))
          + terrain_offset self
      end
  end.

(** [relative_angle = (self.azimuth - player_azimuth + 180) % 360 - 180]. *)
Definition relative_angle (azimuth player_azimuth : Z) : Z :=
  (azimuth - player_azimuth + 180) mod 360 - 180.

(** [abs(relative_angle) > FOV / 2]. *)
Definition outside_fov (rel : Z) : bool :=
  fgt (float_of_int (Z.abs rel)) (fdiv (float_of_int FOV) (float_of_int 2)).

(** [x = int((relative_angle + FOV / 2) / FOV * SCREEN_WIDTH)], before the
    [int]. *)
Definition screen_x_float (rel : Z) : spec_float :=
  fmul
    (fdiv (fadd (float_of_int rel) (fdiv (float_of_int FOV) (float_of_int 2)))
          (float_of_int FOV))
    (float_of_int SCREEN_WIDTH).

Definition get_screen_pos (A : Assets) (self : Fire) (player_azimuth : Z)
    : option (Z * Z) :=
  let rel := relative_angle (azimuth self) player_azimuth in
  if outside_fov rel then None
  else
    let x := int_of_float (screen_x_float rel) in
    let mask :=
      match layer self with
      | far => background_far_mask A
      | mid => background_mid_mask A
      end in
    let screen_y := get_terrain_height_at_screen_x self x mask player_azimuth in
    Some (x, screen_y).

(** ** Game state *)

(** What the program prints. *)
Inductive Line :=
| CouldNotFindTerrain (max_attempts : Z)
| FireReported (cross_azimuth fire_declination : Z)
| NextFireTime (t : spec_float).

Record World := {
  fires : list Fire;
  reports : list (Z * Z);
  player_azimuth : Z;
  osborne_open : bool;
  crosshair_pos : Z * Z;
  next_fire_time : spec_float;
  random : Rng;
  running : bool;
  stdout : list Line
}.

Definition with_fires (w : World) (fs : list Fire) : World :=
  {| fires := fs; reports := reports w; player_azimuth := player_azimuth w;
     osborne_open := osborne_open w; crosshair_pos := crosshair_pos w;
     next_fire_time := next_fire_time w; random := random w;
     running := running w; stdout := stdout w |}.

Definition with_reports (w : World) (rs : list (Z * Z)) : World :=
  {| fires := fires w; reports := rs; player_azimuth := player_azimuth w;
     osborne_open := osborne_open w; crosshair_pos := crosshair_pos w;
     next_fire_time := next_fire_time w; random := random w;
     running := running w; stdout := stdout w |}.

Definition with_player_azimuth (w : World) (a : Z) : World :=
  {| fires := fires w; reports := reports w; player_azimuth := a;
     osborne_open := osborne_open w; crosshair_pos := crosshair_pos w;
     next_fire_time := next_fire_time w; random := random w;
     running := running w; stdout := stdout w |}.

Definition with_osborne_open (w : World) (b : bool) : World :=
  {| fires := fires w; reports := reports w; player_azimuth := player_azimuth w;
     osborne_open := b; crosshair_pos := crosshair_pos w;
     next_fire_time := next_fire_time w; random := random w;
     running := running w; stdout := stdout w |}.

Definition with_crosshair_pos (w : World) (p : Z * Z) : World :=
  {| fires := fires w; reports := reports w; player_azimuth := player_azimuth w;
     osborne_open := osborne_open w; crosshair_pos := p;
     next_fire_time := next_fire_time w; random := random w;
     running := running w; stdout := stdout w |}.

Definition with_next_fire_time (w : World) (t : spec_float) : World :=
  {| fires := fires w; reports := reports w; player_azimuth := player_azimuth w;
     osborne_open := osborne_open w; crosshair_pos := crosshair_pos w;
     next_fire_time := t; random := random w;
     running := running w; stdout := stdout w |}.

Definition with_random (w : World) (r : Rng) : World :=
  {| fires := fires w; reports := reports w; player_azimuth := player_azimuth w;
     osborne_open := osborne_open w; crosshair_pos := crosshair_pos w;
     next_fire_time := next_fire_time w; random := r;
     running := running w; stdout := stdout w |}.

Definition with_running (w : World) (b : bool) : World :=
  {| fires := fires w; reports := reports w; player_azimuth := player_azimuth w;
     osborne_open := osborne_open w; crosshair_pos := crosshair_pos w;
     next_fire_time := next_fire_time w; random := random w;
     running := b; stdout := stdout w |}.

Definition print (w : World) (l : Line) : World :=
  {| fires := fires w; reports := reports w; player_azimuth := player_azimuth w;
     osborne_open := osborne_open w; crosshair_pos := crosshair_pos w;
     next_fire_time := next_fire_time w; random := random w;
     running := running w; stdout := stdout w ++ [l] |}.

(** ** Module-level functions *)

(** What [draw_parallax_layer] sends to the screen.  [draw_far] and
    [draw_mid] call it on the layer's background with scroll factor 1. *)
Inductive Blit :=
| BlitScaled (image : Surface) (size : Z * Z) (dest : Z * Z)
| BlitAt (image : Surface) (dest : Z * Z).

Definition draw_parallax_layer (w : World) (image : Surface)
    (scroll_factor : Z) : list Blit :=
  let bg_width := get_width image in
  if bg_width <=? SCREEN_WIDTH then
    [BlitScaled image (SCREEN_WIDTH, SCREEN_HEIGHT) (0, 0)]
  else
    let offset :=
      int_of_float
        (fmul (fmul (fdiv (float_of_int (player_azimuth w)) (float_of_int 360))
                    (float_of_int bg_width))
              (float_of_int scroll_factor))
      mod bg_width in
    [BlitAt image (- offset, 0); BlitAt image (- offset + bg_width, 0)].

(** The column of its image an unscaled blit puts at screen column [x]. *)
Definition blit_column (b : Blit) (x : Z) : option Z :=
  match b with
  | BlitAt image (dest_x, _) =>
      if (dest_x <=? x) && (x <? dest_x + get_width image)
      then Some (x - dest_x)
      else None
  | BlitScaled _ _ _ => None
  end.

(** The image column visible at screen column [x] after the blits, a later
    blit painting over an earlier one. *)
Definition rendered_column (blits : list Blit) (x : Z) : option Z :=
  fold_left
    (fun shown b =>
       match blit_column b x with
       | Some c => Some c
       | None => shown
       end)
    blits None.

(** The [for y in range(mask_height)] loop of [has_terrain_at_azimuth]. *)
Fixpoint has_terrain_loop (mask : Surface) (x : Z) (ys : list Z) : bool :=
  match ys with
  | [] => false
  | y :: rest =>
      match get_at mask x y with
      | Some pixel =>
          if is_terrain_pixel pixel then true
          else has_terrain_loop mask x rest
      | None => has_terrain_loop mask x rest
      end
  end.

(** The mask column [has_terrain_at_azimuth] inspects. *)
Definition azimuth_mask_column (azimuth : Z) (mask : Surface)
    (player_azimuth : Z) : Z :=
  let mask_width := get_width mask in
  if mask_width <=? SCREEN_WIDTH then
    int_of_float
      (fmul (fdiv (float_of_int azimuth) (float_of_int 360))
            (float_of_int mask_width))
    mod mask_width
  else
    let base_x :=
      int_of_float
        (fmul (fdiv (float_of_int azimuth) (float_of_int 360))
              (float_of_int mask_width)) in
    (base_x + parallax_offset player_azimuth mask_width) mod mask_width.

(** [has_terrain_at_azimuth(azimuth, mask, player_azimuth=0)]; the default
    argument is supplied by the caller here. *)
Definition has_terrain_at_azimuth (azimuth : Z) (mask : Surface)
    (player_azimuth : Z) : bool :=
  has_terrain_loop mask (azimuth_mask_column azimuth mask player_azimuth)
    (range (get_height mask)).

Definition max_attempts : Z := 20.

(** The [while attempts < max_attempts] loop of [generate_fire];
    [remaining] counts the iterations still allowed. *)
Fixpoint generate_fire_loop (A : Assets) (now : Z) (remaining : nat)
    (w : World) : World :=
  match remaining with
  | O => print w (CouldNotFindTerrain max_attempts)
  | S remaining' =>
      let (azimuth, r1) := randint 0 359 (random w) in
      let (distance, r2) := choice [100; 200] r1 in
      let mask :=
        if distance =? 100 then background_mid_mask A
        else background_far_mask A in
      if has_terrain_at_azimuth azimuth mask 0 then
        let (base_lifetime, r3) := randint 10000 50000 r2 in
        let (fire, r4) := Fire_init A now azimuth distance base_lifetime r3 in
        with_random (with_fires w (fires w ++ [fire])) r4
      else generate_fire_loop A now remaining' (with_random w r2)
  end.

Definition generate_fire (A : Assets) (now : Z) (w : World) : World :=
  generate_fire_loop A now (Z.to_nat max_attempts) w.

(** [fires.remove(fire)] finds the first element equal to [fire].  Sprites
    compare by identity; the model compares the fields.  A field-wise twin
    of an expired fire is expired too and is removed by the same sweep, so
    the list left by a sweep is the same under both readings. *)
Definition Q_eq_dec (a b : Q) : {a = b} + {a <> b}.
Proof. decide equality; [apply Pos.eq_dec | apply Z.eq_dec]. Defined.

Definition Fire_eq_dec (a b : Fire) : {a = b} + {a <> b}.
Proof.
  decide equality;
    try apply Z.eq_dec; try apply Q_eq_dec; try apply Bool.bool_dec;
    decide equality.
Defined.

Fixpoint list_remove (x : Fire) (l : list Fire) : list Fire :=
  match l with
  | [] => []
  | y :: rest => if Fire_eq_dec x y then rest else y :: list_remove x rest
  end.

(** The first [for fire in fires] loop of [draw_far] / [draw_mid]: the
    expired fires of the layer are collected, the others are drawn. *)
Fixpoint fires_to_remove (which : Layer) (now : Z) (fs : list Fire)
    : list Fire :=
  match fs with
  | [] => []
  | fire :: rest =>
      if Layer_eqb (layer fire) which then
        if is_expired fire now then fire :: fires_to_remove which now rest
        else fires_to_remove which now rest
      else fires_to_remove which now rest
  end.

(** The second loop: [for fire in fires_to_remove: fires.remove(fire)]. *)
Definition remove_all (to_remove fs : list Fire) : list Fire :=
  fold_left (fun l fire => list_remove fire l) to_remove fs.

(** [draw_far] and [draw_mid], as far as the state goes: the expired fires
    of the layer are removed; the background, the sprites and the haze they
    paint are left out.  [now] is the clock [is_expired] reads. *)
Definition draw_far (now : Z) (w : World) : World :=
  with_fires w (remove_all (fires_to_remove far now (fires w)) (fires w)).

Definition draw_mid (now : Z) (w : World) : World :=
  with_fires w (remove_all (fires_to_remove mid now (fires w)) (fires w)).

(** [cross_azimuth] before the [int], as lines 298 and 306 write it. *)
Definition cross_azimuth_float (cross_x player_azimuth : Z) : spec_float :=
  fadd (fmul (fdiv (float_of_int cross_x) (float_of_int SCREEN_WIDTH))
             (float_of_int FOV))
       (float_of_int (player_azimuth - FOV / 2)).

(** [(300 - cross_y) / (600 / 90)], before the [int]. *)
Definition declination_float (cross_y : Z) : spec_float :=
  fdiv (float_of_int (300 - cross_y))
       (fdiv (float_of_int 600) (float_of_int 90)).

(** [draw_osborne_ui]: the three values formatted into the status line. *)
Definition draw_osborne_ui (A : Assets) (w : World) : Z * Z * Weather :=
  let cross_azimuth :=
    int_of_float
      (cross_azimuth_float (fst (crosshair_pos w)) (player_azimuth w))
    mod 360 in
  let cross_elevation :=
    int_of_float (declination_float (snd (crosshair_pos w))) in
  (cross_azimuth, cross_elevation, weather A).

(** [angle_diff] and [distance_diff] of [check_report]. *)
Definition angle_diff (fire_azimuth cross_azimuth : Z) : Z :=
  Z.abs ((fire_azimuth - cross_azimuth + 180) mod 360 - 180).

Definition distance_diff (fire_x fire_y cross_x cross_y : Z) : spec_float :=
  fsqrt (float_of_int ((fire_x - cross_x) ^ 2 + (fire_y - cross_y) ^ 2)).

(** The [for fire in fires] loop of [check_report].  [Some fs] is the list
    after the loop left through [break], with the hit fire flagged; [None]
    means the loop ran to its end. *)
Fixpoint check_report_loop (A : Assets) (player_azimuth : Z)
    (cross_azimuth cross_x cross_y : Z) (fs : list Fire)
    : option (list Fire) :=
  match fs with
  | [] => None
  | fire :: rest =>
      match get_screen_pos A fire player_azimuth with
      | None =>
          option_map (cons fire)
            (check_report_loop A player_azimuth cross_azimuth cross_x cross_y
               rest)
      | Some (fire_x, fire_y) =>
          if negb (reported fire)
             && (angle_diff (azimuth fire) cross_azimuth <? 15)
             && flt (distance_diff fire_x fire_y cross_x cross_y)
                    (float_of_int 50)
          then Some (set_reported fire true :: rest)
          else
            option_map (cons fire)
              (check_report_loop A player_azimuth cross_azimuth cross_x
                 cross_y rest)
      end
  end.

Definition check_report_cross_azimuth (w : World) : Z :=
  int_of_float (cross_azimuth_float (fst (crosshair_pos w)) (player_azimuth w))
  mod 360.

Definition check_report (A : Assets) (w : World) : World :=
  let cross_azimuth := check_report_cross_azimuth w in
  let '(cross_x, cross_y) := crosshair_pos w in
  match
    check_report_loop A (player_azimuth w) cross_azimuth cross_x cross_y
      (fires w)
  with
  | Some fs =>
      let fire_declination := int_of_float (declination_float cross_y) in
      print
        (with_reports (with_fires w fs)
           (reports w ++ [(cross_azimuth, cross_y)]))
        (FireReported cross_azimuth fire_declination)
  | None => w
  end.

(** ** One iteration of the main loop *)

Inductive Key := K_o | K_SPACE | K_other.

Inductive Event :=
| QUIT
| KEYDOWN (key : Key)
| MOUSEMOTION (pos : Z * Z)
| OtherEvent.

(** What one iteration reads from pygame: the clock, the event queue and the
    held arrow keys. *)
Record Tick := {
  current_time : Z;
  events : list Event;
  left_held : bool;
  right_held : bool
}.

Definition handle_event (A : Assets) (w : World) (event : Event) : World :=
  match event with
  | QUIT => with_running w false
  | KEYDOWN K_o => with_osborne_open w (negb (osborne_open w))
  | KEYDOWN K_SPACE => if osborne_open w then check_report A w else w
  | KEYDOWN K_other => w
  | MOUSEMOTION pos => if osborne_open w then with_crosshair_pos w pos else w
  | OtherEvent => w
  end.

Definition waiting_time_scale (A : Assets) : spec_float :=
  match weather A with
  | Hot => float_of_int 2
  | Windy => literal 3 2
  | Rainy => literal 1 2
  | Clear => float_of_int 1
  end.

(** The body of [while running]; every clock reading of the iteration is
    taken to be [current_time]. *)
Definition frame (A : Assets) (t : Tick) (w : World) : World :=
  let w := fold_left (handle_event A) (events t) w in
  let w :=
    if left_held t
    then with_player_azimuth w ((player_azimuth w - 1) mod 360) else w in
  let w :=
    if right_held t
    then with_player_azimuth w ((player_azimuth w + 1) mod 360) else w in
  let w :=
    if SFleb (next_fire_time w) (float_of_int (current_time t)) then
      let w := generate_fire A (current_time t) w in
      let (delay, r) := randint 4000 8000 (random w) in
      let next :=
        fadd (float_of_int (current_time t))
             (fdiv (float_of_int delay) (waiting_time_scale A)) in
      print (with_next_fire_time (with_random w r) next) (NextFireTime next)
    else w in
  let w := draw_far (current_time t) w in
  draw_mid (current_time t) w.

(** ** The specification's wording

    The definitions below follow the text of the specification, read as it
    is written: in exact rational arithmetic, with [floor] the mathematical
    floor.  The theorems compare them with the functions above, which
    compute in binary64. *)

(** [aimX/screenWidth * FOV + (viewBearing - FOV/2)]. *)
Definition spec_aim_value (aim_x view_bearing : Z) : Q :=
  (inject_Z aim_x / inject_Z SCREEN_WIDTH * inject_Z FOV
   + (inject_Z view_bearing - inject_Z FOV / 2))%Q.

(** [aimBearing = floor(aimX/screenWidth * FOV + (viewBearing - FOV/2)) mod
    360]. *)
Definition spec_aim_bearing (aim_x view_bearing : Z) : Z :=
  Qfloor (spec_aim_value aim_x view_bearing) mod 360.

(** [(300 - aimY)/(600/90)]. *)
Definition spec_elevation_value (aim_y : Z) : Q :=
  ((300 - inject_Z aim_y) / (600 / 90))%Q.

(** [aimElevation = floor((300 - aimY)/(600/90))]. *)
Definition spec_aim_elevation (aim_y : Z) : Z :=
  Qfloor (spec_elevation_value aim_y).

(** [x = floor((delta + FOV/2)/FOV * screenWidth)]. *)
Definition spec_screen_x (delta : Z) : Z :=
  Qfloor ((inject_Z delta + inject_Z FOV / 2) / inject_Z FOV
          * inject_Z SCREEN_WIDTH)%Q.

(** [parallaxOffset = floor(viewBearing/360 * W) mod W]. *)
Definition spec_parallax_offset (view_bearing W : Z) : Z :=
  Qfloor (inject_Z view_bearing / 360 * inject_Z W)%Q mod W.

(** The lifetime multiplier of each weather. *)
Definition lifetime_multiplier (weather : Weather) : Q :=
  match weather with
  | Rainy => 1 # 2
  | Windy => 3 # 2
  | Hot => 2
  | Clear => 1
  end.

(** The test the loop of [check_report] makes on an entity, with the
    distance as the program computes it, a binary64 square root. *)
Definition reportable (A : Assets) (w : World) (fire : Fire) : bool :=
  negb (reported fire)
  && match get_screen_pos A fire (player_azimuth w) with
     | None => false
     | Some (x, y) =>
         (Z.abs (relative_angle (azimuth fire) (check_report_cross_azimuth w))
          <? 15)
         && flt (distance_diff x y (fst (crosshair_pos w))
                   (snd (crosshair_pos w)))
                (float_of_int 50)
     end.

(** The same entity in the words of the claim: unreported, with a screen
    position, the signed angular difference [((bearing - aim + 180) mod 360)
    - 180] less than 15 in absolute value, and the Euclidean distance
    [sqrt(dx^2 + dy^2)] to the aim point less than 50, that is
    [dx^2 + dy^2 < 50^2]. *)
Definition spec_reportable (A : Assets) (w : World) (fire : Fire) : bool :=
  negb (reported fire)
  && match get_screen_pos A fire (player_azimuth w) with
     | None => false
     | Some (x, y) =>
         (Z.abs ((azimuth fire - check_report_cross_azimuth w + 180) mod 360
                 - 180) <? 15)
         && ((x - fst (crosshair_pos w)) ^ 2 + (y - snd (crosshair_pos w)) ^ 2
             <? 50 ^ 2)
     end.

(** The aim points at which the binary64 evaluation of the aim value falls
    on the other side of an integer than the exact value: in three columns
    it ends just above a negative integer, in one just below a positive
    one. *)
Definition aim_rounding_shift (aim_x view_bearing : Z) : Z :=
  if (aim_x =? 112) && (22 <=? view_bearing) && (view_bearing <=? 53) then 1
  else if (aim_x =? 224) && (view_bearing <=? 32) then 1
  else if (aim_x =? 272) && (view_bearing <=? 23) then 1
  else if (aim_x =? 656) && (view_bearing <=? 80) then -1
  else 0.

(** ** Vocabulary of the statements *)

(** The loop of [check_report] run with the aim of world [w]. *)
Definition report_scan (A : Assets) (w : World) (fs : list Fire)
    : option (list Fire) :=
  check_report_loop A (player_azimuth w) (check_report_cross_azimuth w)
    (fst (crosshair_pos w)) (snd (crosshair_pos w)) fs.

(** The world a successful report leaves: the hit fire flagged, one record
    appended, one line printed. *)
Definition after_hit (w : World) (pre : list Fire) (fire : Fire)
    (post : list Fire) : World :=
  print
    (with_reports (with_fires w (pre ++ set_reported fire true :: post))
       (reports w ++ [(check_report_cross_azimuth w, snd (crosshair_pos w))]))
    (FireReported (check_report_cross_azimuth w)
       (int_of_float (declination_float (snd (crosshair_pos w))))).

(** The mask of an entity's layer. *)
Definition layer_mask (A : Assets) (l : Layer) : Surface :=
  match l with
  | far => background_far_mask A
  | mid => background_mid_mask A
  end.

(** The generator after [n] more draws. *)
Definition skip_draws (r : Rng) (n : nat) : Rng :=
  {| draws := draws r; cursor := (n + cursor r)%nat |}.

(** The bearing, the distance and the terrain test of the [k]-th attempt of
    a spawn cycle that starts with generator [r]: every failed attempt
    consumes two draws, and the test is made for a view at bearing 0. *)
Definition attempt_azimuth (r : Rng) (k : nat) : Z :=
  fst (randint 0 359 (skip_draws r (2 * k))).

Definition attempt_distance (r : Rng) (k : nat) : Z :=
  fst (choice [100; 200] (snd (randint 0 359 (skip_draws r (2 * k))))).

Definition attempt_has_terrain (A : Assets) (r : Rng) (k : nat) : bool :=
  has_terrain_at_azimuth (attempt_azimuth r k)
    (if attempt_distance r k =? 100 then background_mid_mask A
     else background_far_mask A)
    0.

(** The same entity, whatever its [reported] flag. *)
Definition same_entity (f g : Fire) : Prop :=
  set_reported f true = set_reported g true.

(** Position of the first element accepted by [p]. *)
Fixpoint find_index {X : Type} (p : X -> bool) (l : list X) : option nat :=
  match l with
  | [] => None
  | x :: rest => if p x then Some O else option_map S (find_index p rest)
  end.

(** The position in [fires] of the entity a report attempt would hit. *)
Definition hit_index (A : Assets) (w : World) : option nat :=
  find_index (reportable A w) (fires w).

(** Worlds reached without a sweep, so that positions in [fires] keep
    naming the same entity: report attempts, aim and bearing changes,
    instrument toggles and spawn cycles, in any order. *)
Inductive session (A : Assets) (w : World) : World -> Prop :=
| session_start : session A w w
| session_report w' : session A w w' -> session A w (check_report A w')
| session_aim w' pos :
    session A w w' -> session A w (with_crosshair_pos w' pos)
| session_turn w' bearing :
    session A w w' -> session A w (with_player_azimuth w' bearing)
| session_toggle w' open :
    session A w w' -> session A w (with_osborne_open w' open)
| session_spawn w' now :
    session A w w' -> session A w (generate_fire A now w').

(** Every entity of [fs] is still present in [fs']. *)
Definition carried_over (fs fs' : list Fire) : Prop :=
  forall f, In f fs -> exists f', In f' fs' /\ same_entity f f'.

(** Number of flagged entities. *)
Definition reported_count (fs : list Fire) : nat :=
  length (filter reported fs).

(** [base * multiplier], computed in binary64, denotes the rational
    [base * q]. *)
Definition lifetime_product_exact (multiplier : spec_float) (q : Q)
    (base : Z) : bool :=
  Qeq_bool (float_value (fmul (float_of_int base) multiplier))
           (inject_Z base * q).

(** A bounded universal check, for the finitely many angles. *)
Fixpoint forall_range (lo : Z) (n : nat) (P : Z -> bool) : bool :=
  match n with
  | O => true
  | S n' => P lo && forall_range (lo + 1) n' P
  end.

(** The doubles [float(v - FOV / 2)] of the 360 view bearings. *)
Definition bearing_offsets : list (Z * spec_float) :=
  map (fun v => (v, float_of_int (v - FOV / 2))) (range 360).

(** One screen column of the aim read-out: on every view bearing of
    [offsets] the double of [cross_azimuth] truncates to the exact value
    truncated, shifted by [aim_rounding_shift]. *)
Definition aim_column_check (offsets : list (Z * spec_float)) (x : Z)
    : bool :=
  let a := fmul (fdiv (float_of_int x) (float_of_int SCREEN_WIDTH))
                (float_of_int FOV) in
  forallb
    (fun vf =>
       int_of_float (fadd a (snd vf))
       =? Z.quot (3 * x + 16 * (fst vf - 75)) 16
          + aim_rounding_shift x (fst vf))
    offsets.

(** ** Sample assets and states *)

Definition rng_of (l : list Z) : Rng :=
  {| draws := fun n => nth n l 0; cursor := 0%nat |}.

(** A mask that is terrain everywhere, and the all-white mask [load_mask]
    falls back to. *)
Definition solid_mask : Surface := fallback_surface (0, 0, 0).
Definition blank_mask : Surface := fallback_surface (255, 255, 255).

(** A short all-white strip, and a wide mask whose left half is terrain. *)
Definition blank_strip : Surface :=
  {| get_width := 8; get_height := 1; pixel := fun _ _ => (255, 255, 255) |}.

Definition half_wide_mask : Surface :=
  {| get_width := 1600; get_height := 1;
     pixel := fun x _ => if x <? 800 then (0, 0, 0) else (255, 255, 255) |}.

(** A background as wide as [half_wide_mask]. *)
Definition wide_background : Surface :=
  {| get_width := 1600; get_height := 600;
     pixel := fun _ _ => (135, 206, 235) |}.

Definition solid_assets (weather : Weather) : Assets :=
  {| weather := weather;
     background_mid_mask := solid_mask; background_far_mask := solid_mask |}.

Definition blank_assets : Assets :=
  {| weather := Clear;
     background_mid_mask := blank_strip; background_far_mask := blank_strip |}.

Definition sample_world (fs : list Fire) (bearing : Z) (aim : Z * Z)
    (r : Rng) : World :=
  {| fires := fs; reports := []; player_azimuth := bearing;
     osborne_open := true; crosshair_pos := aim;
     next_fire_time := float_of_int 3000; random := r;
     running := true; stdout := [] |}.

Definition sample_fire (azimuth offset : Z) : Fire :=
  {| azimuth := azimuth; distance := 200; layer := far; reported := false;
     terrain_offset := offset; lifetime := 50000; spawn_time := 0 |}.

(** ** Asset loading, the main loop and the vocabulary of the further
    properties *)

(** [load_image(path, fallback_color)] and [load_mask(path,
    fallback_color)]: [file] is the surface [pygame.image.load] returns, or
    [None] when it raises. *)
Definition load_image (file : option Surface) (fallback_color : Z * Z * Z)
    : Surface :=
  match file with
  | Some surface => surface
  | None => fallback_surface fallback_color
  end.

Definition load_mask (file : option Surface) (fallback_color : Z * Z * Z)
    : Surface :=
  match file with
  | Some surface => surface
  | None => fallback_surface fallback_color
  end.

(** The default [fallback_color] of [load_mask], used by both calls. *)
Definition mask_fallback_color : Z * Z * Z := (255, 255, 255).

(** The masks as lines 51 and 52 load them. *)
Definition loaded_assets (weather : Weather)
    (mid_file far_file : option Surface) : Assets :=
  {| weather := weather;
     background_mid_mask := load_mask mid_file mask_fallback_color;
     background_far_mask := load_mask far_file mask_fallback_color |}.

(** [while running]: the iterations made on a finite trace of ticks. *)
Fixpoint main_loop (A : Assets) (ticks : list Tick) (w : World) : World :=
  match ticks with
  | [] => w
  | t :: rest => if running w then main_loop A rest (frame A t w) else w
  end.

(** The three stages of an iteration that precede the sweeps. *)
Definition after_events (A : Assets) (t : Tick) (w : World) : World :=
  fold_left (handle_event A) (events t) w.

Definition after_keys (t : Tick) (w : World) : World :=
  let w :=
    if left_held t
    then with_player_azimuth w ((player_azimuth w - 1) mod 360) else w in
  if right_held t
  then with_player_azimuth w ((player_azimuth w + 1) mod 360) else w.

Definition after_spawn (A : Assets) (t : Tick) (w : World) : World :=
  if SFleb (next_fire_time w) (float_of_int (current_time t)) then
    let w := generate_fire A (current_time t) w in
    let (delay, r) := randint 4000 8000 (random w) in
    let next :=
      fadd (float_of_int (current_time t))
           (fdiv (float_of_int delay) (waiting_time_scale A)) in
    print (with_next_fire_time (with_random w r) next) (NextFireTime next)
  else w.

(** A fire as the spawner builds them. *)
Definition well_formed_fire (A : Assets) (f : Fire) : Prop :=
  0 <= azimuth f < 360 /\
  (distance f = 100 \/ distance f = 200) /\
  layer f = (if 150 <? distance f then far else mid) /\
  0 <= terrain_offset f <= 80 /\
  exists base,
    10000 <= base <= 50000 /\
    (lifetime f == inject_Z base * lifetime_multiplier (weather A))%Q.

(** What every iteration of the loop keeps true. *)
Definition well_formed_world (A : Assets) (w : World) : Prop :=
  0 <= player_azimuth w < 360 /\
  Forall (well_formed_fire A) (fires w) /\
  Forall (fun record => 0 <= fst record < 360) (reports w) /\
  (reported_count (fires w) <= length (reports w))%nat.

(** Two worlds with the same bearing, instrument flag, aim point and
    running flag. *)
Definition same_controls (w w' : World) : Prop :=
  player_azimuth w' = player_azimuth w /\
  osborne_open w' = osborne_open w /\
  crosshair_pos w' = crosshair_pos w /\
  running w' = running w.

(** The waiting time [delay / scale], computed in binary64, lies between
    [lo] and [hi]. *)
Definition spawn_delay_within (scale : spec_float) (lo hi : Q) (delay : Z)
    : bool :=
  let q := float_value (fdiv (float_of_int delay) scale) in
  Qle_bool lo q && Qle_bool q hi.

(** A mask pixel that counts as terrain. *)
Definition terrain_at (mask : Surface) (x y : Z) : bool :=
  is_terrain_pixel (pixel mask x y).

(** [base_screen_y = int((y / mask_height) * SCREEN_HEIGHT)]. *)
Definition base_screen_y (y mask_height : Z) : Z :=
  int_of_float
    (fmul (fdiv (float_of_int y) (float_of_int mask_height))
          (float_of_int SCREEN_HEIGHT)).

(** The blits of a list that paint screen column [x]. *)
Definition covering (blits : list Blit) (x : Z) : list Blit :=
  filter (fun b => match blit_column b x with Some _ => true | None => false end)
    blits.

(** * Properties *)

(** ** Rounding of doubles to integers *)

Lemma pow2_pos (p : positive) : 0 < 2 ^ Zpos p.
Proof. apply Z.pow_pos_nonneg; lia. Qed.

Lemma int_of_float_trunc (f : spec_float) :
  int_of_float f = Qtrunc (float_value f).
Proof.
  destruct f as [s | s | | s m e]; try reflexivity.
  unfold int_of_float, float_value, Qtrunc.
  destruct e as [| p | p]; cbn [inject_Z Qnum Qden].
  - now rewrite Z.quot_1_r.
  - now rewrite Z.quot_1_r.
  - pose proof (pow2_pos p) as Hp.
    rewrite Z2Pos.id by exact Hp.
    rewrite Z.shiftr_div_pow2 by lia.
    destruct s; cbn [cond_Zopp].
    + rewrite Z.quot_opp_l by lia.
      now rewrite Z.quot_div_nonneg by lia.
    + now rewrite Z.quot_div_nonneg by lia.
Qed.

Lemma floor_of_float_floor (f : spec_float) :
  floor_of_float f = Qfloor (float_value f).
Proof.
  destruct f as [s | s | | s m e]; try reflexivity.
  unfold floor_of_float, float_value.
  destruct e as [| p | p]; cbn [inject_Z Qfloor].
  - now rewrite Z.div_1_r.
  - now rewrite Z.div_1_r.
  - rewrite Z2Pos.id by apply pow2_pos.
    now rewrite Z.shiftr_div_pow2 by lia.
Qed.

(** Truncation is the floor, plus one on a negative non-integer. *)
Lemma Qtrunc_Qfloor (q : Q) :
  Qtrunc q = Qfloor q + (if negative_fraction q then 1 else 0).
Proof.
  destruct q as [n d]; unfold Qtrunc, Qfloor, negative_fraction;
    cbn [Qnum Qden].
  destruct (Z.ltb_spec n 0) as [Hn | Hn]; cbn [andb].
  - assert (Hq : Z.quot n (Zpos d) = - (- n / Zpos d)).
    { rewrite <- (Z.opp_involutive n) at 1.
      rewrite Z.quot_opp_l by lia.
      now rewrite Z.quot_div_nonneg by lia. }
    rewrite Hq.
    destruct (Z.eqb_spec (n mod Zpos d) 0) as [Hm | Hm]; cbn [negb].
    + rewrite Z.div_opp_l_z by (lia || assumption). lia.
    + rewrite Z.div_opp_l_nz by (lia || assumption). lia.
  - rewrite Z.quot_div_nonneg by lia. lia.
Qed.

Lemma int_of_float_floor_fraction (f : spec_float) :
  int_of_float f
  = floor_of_float f + (if negative_fraction (float_value f) then 1 else 0).
Proof.
  now rewrite int_of_float_trunc, floor_of_float_floor, Qtrunc_Qfloor.
Qed.

(** A double that is not a negative finite number is truncated to its
    floor. *)
Lemma int_of_float_floor (f : spec_float) :
  not_negative f = true -> int_of_float f = floor_of_float f.
Proof.
  destruct f as [s | s | | [|] m e]; intros H;
    try reflexivity; try discriminate.
Qed.

Lemma binary_round_aux_not_negative mx ex lx :
  not_negative (binary_round_aux prec emax false mx ex lx) = true.
Proof.
  unfold binary_round_aux.
  destruct (shr_fexp prec emax mx ex lx) as [mrs' e'].
  destruct (shr_fexp _ _ _ _ _) as [mrs'' e''].
  destruct (shr_m mrs''); try reflexivity.
  now destruct (e'' <=? emax - prec).
Qed.

Lemma float_of_int_not_negative (n : Z) :
  0 <= n -> not_negative (float_of_int n) = true.
Proof.
  intros Hn. unfold float_of_int, binary_normalize.
  destruct n as [| p | p]; try reflexivity; try lia.
  unfold binary_round.
  destruct (shl_align _ _ _) as [mz ez].
  apply binary_round_aux_not_negative.
Qed.

Lemma fmul_not_negative (a b : spec_float) :
  not_negative a = true -> not_negative b = true ->
  not_negative (fmul a b) = true.
Proof.
  destruct a as [[|] | [|] | | [|] ma ea], b as [[|] | [|] | | [|] mb eb];
    try reflexivity; try discriminate; intros _ _.
  apply binary_round_aux_not_negative.
Qed.

Lemma fdiv_not_negative (a b : spec_float) :
  not_negative a = true -> not_negative b = true ->
  not_negative (fdiv a b) = true.
Proof.
  destruct a as [[|] | [|] | | [|] ma ea], b as [[|] | [|] | | [|] mb eb];
    try reflexivity; try discriminate; intros _ _.
  unfold fdiv, SFdiv.
  destruct (SFdiv_core_binary _ _ _ _ _ _) as [[mz ez] lz].
  apply binary_round_aux_not_negative.
Qed.

(** ** Bounded checks *)

Lemma forall_range_spec (P : Z -> bool) (n : nat) (lo : Z) :
  forall_range lo n P = true ->
  forall z, lo <= z < lo + Z.of_nat n -> P z = true.
Proof.
  revert lo; induction n as [| n IH]; intros lo H z Hz.
  - lia.
  - cbn [forall_range] in H. apply andb_true_iff in H as [H0 H1].
    destruct (Z.eq_dec z lo) as [-> | Hne]; [exact H0 |].
    apply (IH (lo + 1) H1). lia.
Qed.

(** Settles a goal [P z = true] for [lo <= z < lo + n] by running [P] on
    the whole range. *)
Ltac by_range_check P n lo :=
  apply (forall_range_spec P (Z.to_nat n) lo); [vm_compute; reflexivity | lia].

(** Membership in [range n]. *)
Lemma in_range (n y : Z) : In y (range n) <-> 0 <= y < n.
Proof.
  unfold range. rewrite in_map_iff. split.
  - intros (k & <- & Hk). apply in_seq in Hk. lia.
  - intros H. exists (Z.to_nat y). split; [lia |]. apply in_seq. lia.
Qed.

(** Truncation does not depend on how a rational is written. *)
Lemma Qtrunc_comp (p q : Q) : (p == q)%Q -> Qtrunc p = Qtrunc q.
Proof.
  destruct p as [n1 d1], q as [n2 d2]. unfold Qeq, Qtrunc; cbn [Qnum Qden].
  intros H.
  rewrite <- (Z.quot_mul_cancel_r n1 (Zpos d1) (Zpos d2)) by lia.
  rewrite <- (Z.quot_mul_cancel_r n2 (Zpos d2) (Zpos d1)) by lia.
  rewrite H. f_equal. lia.
Qed.

(** The formulas of the specification as integer quotients. *)
Lemma spec_aim_value_trunc (x v : Z) :
  Qtrunc (spec_aim_value x v) = Z.quot (3 * x + 16 * (v - 75)) 16.
Proof.
  rewrite (Qtrunc_comp _ ((3 * x + 16 * (v - 75)) # 16)); [reflexivity |].
  unfold spec_aim_value, SCREEN_WIDTH, FOV, Qeq;
    cbv [Qnum Qden Qplus Qminus Qmult Qdiv Qinv Qopp inject_Z]; lia.
Qed.

Lemma spec_elevation_value_trunc (y : Z) :
  Qtrunc (spec_elevation_value y) = Z.quot ((300 - y) * 90) 600.
Proof.
  rewrite (Qtrunc_comp _ (((300 - y) * 90) # 600)); [reflexivity |].
  unfold spec_elevation_value. change (600 / 90)%Q with (600 # 90).
  unfold Qeq; cbv [Qnum Qden Qplus Qminus Qmult Qdiv Qinv Qopp inject_Z]; lia.
Qed.

Lemma spec_screen_x_div (d : Z) :
  spec_screen_x d = (d + 75) * 800 / 150.
Proof.
  unfold spec_screen_x.
  rewrite (Qfloor_comp _ (((d + 75) * 800) # 150)); [reflexivity |].
  unfold SCREEN_WIDTH, FOV, Qeq;
    cbv [Qnum Qden Qplus Qminus Qmult Qdiv Qinv Qopp inject_Z]; lia.
Qed.

Lemma spec_parallax_offset_div (v W : Z) :
  spec_parallax_offset v W = (v * W / 360) mod W.
Proof.
  unfold spec_parallax_offset.
  rewrite (Qfloor_comp _ ((v * W) # 360)); [reflexivity |].
  unfold Qeq; cbv [Qnum Qden Qplus Qminus Qmult Qdiv Qinv Qopp inject_Z]; lia.
Qed.

(** ** The square root against the 50-pixel threshold *)

Lemma digits2_pos_log2 (p : positive) :
  Zpos (digits2_pos p) = Z.log2 (Zpos p) + 1.
Proof.
  destruct p as [p | p |]; cbn [digits2_pos Z.log2]; try reflexivity;
    rewrite Pos2Z.inj_succ; f_equal;
    induction p as [p IH | p IH |]; cbn [digits2_pos Pos.size];
    rewrite ?Pos2Z.inj_succ, ?IH; reflexivity.
Qed.

Lemma digits2_pos_iter_xO (p k : positive) :
  Zpos (digits2_pos (Pos.iter xO p k)) = Zpos (digits2_pos p) + Zpos k.
Proof.
  induction k as [| k IH] using Pos.peano_ind.
  - cbn [Pos.iter digits2_pos]. lia.
  - rewrite Pos.iter_succ. cbn [digits2_pos]. lia.
Qed.

Lemma shr_1_m (mrs : shr_record) :
  0 <= shr_m mrs -> shr_m (shr_1 mrs) = shr_m mrs / 2.
Proof.
  destruct mrs as [m r s]. cbn [shr_m]. intros H.
  destruct m as [| [p | p |] | p]; cbn [shr_1 shr_m]; try reflexivity;
    try lia.
  - rewrite Pos2Z.inj_xI. apply (Z.div_unique _ _ _ 1); lia.
  - rewrite Pos2Z.inj_xO. apply (Z.div_unique _ _ _ 0); lia.
Qed.

Lemma iter_shr_1_m (p : positive) (mrs : shr_record) :
  0 <= shr_m mrs ->
  shr_m (iter_pos shr_1 p mrs) = shr_m mrs / 2 ^ Zpos p.
Proof.
  revert mrs.
  induction p as [p IH | p IH |]; intros mrs H; cbn [iter_pos].
  - assert (H1 : 0 <= shr_m (shr_1 mrs)).
    { rewrite shr_1_m by exact H. apply Z.div_pos; lia. }
    assert (H2 : 0 <= shr_m (iter_pos shr_1 p (shr_1 mrs))).
    { rewrite IH by exact H1. apply Z.div_pos; [exact H1 |]. apply pow2_pos. }
    rewrite IH by exact H2. rewrite IH by exact H1. rewrite shr_1_m by exact H.
    pose proof (pow2_pos p).
    rewrite !Z.div_div by lia. f_equal.
    replace (Zpos p~1) with (1 + Zpos p + Zpos p) by lia.
    rewrite !Z.pow_add_r by lia. change (2 ^ 1) with 2. ring.
  - assert (H2 : 0 <= shr_m (iter_pos shr_1 p mrs)).
    { rewrite IH by exact H. apply Z.div_pos; [exact H |]. apply pow2_pos. }
    rewrite IH by exact H2. rewrite IH by exact H.
    pose proof (pow2_pos p).
    rewrite !Z.div_div by lia. f_equal.
    replace (Zpos p~0) with (Zpos p + Zpos p) by lia.
    rewrite !Z.pow_add_r by lia. ring.
  - rewrite shr_1_m by exact H. reflexivity.
Qed.

Lemma shr_record_of_loc_m (m : Z) (l : location) :
  shr_m (shr_record_of_loc m l) = m.
Proof. now destruct l as [| []]. Qed.

Lemma digits2_pos_le (p q : positive) :
  Zpos p <= Zpos q -> Zpos (digits2_pos p) <= Zpos (digits2_pos q).
Proof.
  intros H. rewrite !digits2_pos_log2.
  pose proof (Z.log2_le_mono _ _ H). lia.
Qed.

(** Shifting a positive mantissa to its canonical exponent keeps it
    positive, never lowers the exponent and keeps the position of the
    leading bit. *)
Lemma shr_fexp_shape (m : positive) (e : Z) (l : location) :
  -1074 <= e ->
  exists m',
    shr_m (fst (shr_fexp prec emax (Zpos m) e l)) = Zpos m' /\
    e <= snd (shr_fexp prec emax (Zpos m) e l) /\
    Zpos (digits2_pos m') + snd (shr_fexp prec emax (Zpos m) e l)
    = Zpos (digits2_pos m) + e.
Proof.
  intros He. unfold shr_fexp, shr, fexp, emin, Zdigits2, prec, emax.
  destruct (Z.max (Zpos (digits2_pos m) + e - 53) (3 - 1024 - 53) - e)
    as [| p | p] eqn:En; cbn [fst snd].
  - exists m. rewrite shr_record_of_loc_m. repeat split; lia.
  - assert (Hp : Zpos p = Zpos (digits2_pos m) - 53) by lia.
    rewrite iter_shr_1_m by (rewrite shr_record_of_loc_m; lia).
    rewrite shr_record_of_loc_m.
    pose proof (digits2_pos_log2 m) as Hd.
    pose proof (Z.log2_spec (Zpos m) ltac:(lia)) as [Hlo _].
    assert (Hle : 2 ^ Zpos p <= Zpos m).
    { apply Z.le_trans with (2 ^ Z.log2 (Zpos m)); [| exact Hlo].
      apply Z.pow_le_mono_r; lia. }
    pose proof (pow2_pos p) as Hpos.
    pose proof (Z.div_str_pos _ _ (conj Hpos Hle)) as Hq.
    destruct (Zpos m / 2 ^ Zpos p) as [| m' |] eqn:Eq; try lia.
    exists m'. split; [reflexivity |]. split; [lia |].
    rewrite (digits2_pos_log2 m'), <- Eq, <- Z.shiftr_div_pow2 by lia.
    rewrite Z.log2_shiftr by lia. lia.
  - exists m. rewrite shr_record_of_loc_m. repeat split; lia.
Qed.

Lemma round_nearest_even_shape (m : positive) (l : location) :
  exists q, round_nearest_even (Zpos m) l = Zpos q /\ Zpos m <= Zpos q.
Proof.
  destruct l as [| []]; cbn [round_nearest_even].
  - exists m. split; [reflexivity | lia].
  - destruct (Z.even (Zpos m)).
    + exists m. split; [reflexivity | lia].
    + exists (m + 1)%positive. split; [reflexivity | lia].
  - exists m. split; [reflexivity | lia].
  - exists (m + 1)%positive. split; [reflexivity | lia].
Qed.

(** Rounding a positive mantissa gives a positive double or [+inf]; the
    exponent does not go down and the leading bit does not move down. *)
Lemma binary_round_aux_shape (m : positive) (e : Z) (l : location) :
  -1074 <= e ->
  match binary_round_aux prec emax false (Zpos m) e l with
  | S754_infinity false => True
  | S754_finite false m' e' =>
      e <= e' /\
      Zpos (digits2_pos m) + e <= Zpos (digits2_pos m') + e'
  | _ => False
  end.
Proof.
  intros He. unfold binary_round_aux.
  destruct (shr_fexp_shape m e l He) as (m1 & Hm1 & He1 & Hd1).
  destruct (shr_fexp prec emax (Zpos m) e l) as [mrs1 e1].
  cbn [fst snd] in Hm1, He1, Hd1. rewrite Hm1.
  destruct (round_nearest_even_shape m1 (loc_of_shr_record mrs1))
    as (q & Eq & Hq).
  rewrite Eq.
  destruct (shr_fexp_shape q e1 loc_Exact ltac:(lia)) as (m2 & Hm2 & He2 & Hd2).
  destruct (shr_fexp prec emax (Zpos q) e1 loc_Exact) as [mrs2 e2].
  cbn [fst snd] in Hm2, He2, Hd2. rewrite Hm2.
  pose proof (digits2_pos_le _ _ Hq).
  destruct (e2 <=? emax - prec); [lia | exact I].
Qed.

(** [float(n)] for [n >= 4096]. *)
Lemma float_of_int_shape (n : Z) :
  4096 <= n ->
  match float_of_int n with
  | S754_infinity false => True
  | S754_finite false m e => -40 <= e /\ 13 <= Zpos (digits2_pos m) + e
  | _ => False
  end.
Proof.
  intros Hn. destruct n as [| p | p]; try lia.
  unfold float_of_int, binary_normalize, binary_round.
  assert (Hd : 13 <= Zpos (digits2_pos p)).
  { rewrite digits2_pos_log2.
    pose proof (Z.log2_le_mono _ _ Hn) as H. change (Z.log2 4096) with 12 in H.
    lia. }
  unfold shl_align.
  set (ex := fexp prec emax (Zpos (digits2_pos p) + 0)).
  assert (Hex : ex = Zpos (digits2_pos p) - 53)
    by (subst ex; unfold fexp, emin, prec, emax; lia).
  destruct (ex - 0) as [| k | k] eqn:Ek.
  - pose proof (binary_round_aux_shape p 0 loc_Exact ltac:(lia)) as H.
    destruct (binary_round_aux prec emax false (Zpos p) 0 loc_Exact)
      as [| [] | | [] m e]; try exact H. lia.
  - pose proof (binary_round_aux_shape p 0 loc_Exact ltac:(lia)) as H.
    destruct (binary_round_aux prec emax false (Zpos p) 0 loc_Exact)
      as [| [] | | [] m e]; try exact H. lia.
  - pose proof (binary_round_aux_shape (Pos.iter xO p k) ex loc_Exact
                  ltac:(lia)) as H.
    rewrite digits2_pos_iter_xO in H.
    destruct (binary_round_aux prec emax false (Zpos (Pos.iter xO p k)) ex
                loc_Exact)
      as [| [] | | [] m e]; try exact H. lia.
Qed.

(** The square root of a double that is at least [2^12] has an exponent of
    [-46] or more, or is [+inf]. *)
Lemma fsqrt_shape (m : positive) (e : Z) :
  -40 <= e -> 13 <= Zpos (digits2_pos m) + e ->
  match fsqrt (S754_finite false m e) with
  | S754_infinity false => True
  | S754_finite false _ e' => -46 <= e'
  | _ => False
  end.
Proof.
  intros He Hd. unfold fsqrt, SFsqrt, SFsqrt_core_binary, Zdigits2.
  set (e' := Z.min (fexp prec emax (Z.div2 (Zpos (digits2_pos m) + e + 1)))
                   (Z.div2 e)).
  assert (He' : -46 <= e' /\ 2 * e' <= e).
  { subst e'. unfold fexp, emin, prec, emax. rewrite !Z.div2_div.
    pose proof (Z.div_le_mono 14 (Zpos (digits2_pos m) + e + 1) 2
                  ltac:(lia) ltac:(lia)) as H1.
    change (14 / 2) with 7 in H1.
    pose proof (Z.div_le_mono (-40) e 2 ltac:(lia) He) as H2.
    change (-40 / 2) with (-20) in H2.
    pose proof (Z.mul_div_le e 2 ltac:(lia)). lia. }
  set (m' := match e - 2 * e' with
             | 0 => Zpos m
             | Zpos _ => Z.shiftl (Zpos m) (e - 2 * e')
             | Zneg _ => 0
             end).
  assert (Hm' : 0 < m').
  { subst m'. destruct (e - 2 * e') as [| s | s] eqn:Es; try lia.
    rewrite Z.shiftl_mul_pow2 by lia. pose proof (pow2_pos s). nia. }
  pose proof (Z.sqrtrem_sqrt m') as Hs.
  destruct (Z.sqrtrem m') as [q r]. cbn [fst] in Hs.
  pose proof (proj2 (Z.sqrt_pos m') Hm') as Hq. rewrite <- Hs in Hq.
  destruct q as [| q |]; try lia.
  match goal with
  | |- context [binary_round_aux _ _ _ _ _ ?l] =>
      pose proof (binary_round_aux_shape q e' l ltac:(lia)) as H;
      destruct (binary_round_aux prec emax false (Zpos q) e' l)
        as [| [] | | [] mq eq]; try exact H; lia
  end.
Qed.

(** [math.sqrt(n) < 50] decides [n < 2500] for every natural [n]: below
    4096 by computation, above because the root is at least 64. *)
Lemma sqrt_below_50 (n : Z) :
  0 <= n -> flt (fsqrt (float_of_int n)) (float_of_int 50) = (n <? 2500).
Proof.
  intros Hn. destruct (Z.lt_ge_cases n 4096) as [Hsmall | Hbig].
  - apply eqb_prop.
    by_range_check
      (fun z => Bool.eqb (flt (fsqrt (float_of_int z)) (float_of_int 50))
                         (z <? 2500))
      4096 0.
  - replace (n <? 2500) with false by (symmetry; apply Z.ltb_ge; lia).
    pose proof (float_of_int_shape n Hbig) as Hf.
    destruct (float_of_int n) as [| [] | | [] m e]; try contradiction.
    + reflexivity.
    + destruct Hf as [He Hd].
      pose proof (fsqrt_shape m e He Hd) as Hr.
      destruct (fsqrt (S754_finite false m e)) as [| [] | | [] mr er];
        try contradiction.
      * reflexivity.
      * change (float_of_int 50)
          with (S754_finite false 7036874417766400 (-47)).
        unfold flt, SFltb, SFcompare.
        replace (er ?= -47) with Gt by (symmetry; apply Z.compare_gt_iff; lia).
        reflexivity.
Qed.

(** ** The report scan *)

Section ReportScan.

Variable A : Assets.
Variable w : World.

(** One iteration: a reportable fire ends the loop, any other is skipped. *)
Lemma scan_cons (fire : Fire) (rest : list Fire) :
  report_scan A w (fire :: rest) =
  if reportable A w fire then Some (set_reported fire true :: rest)
  else option_map (cons fire) (report_scan A w rest).
Proof.
  unfold report_scan, reportable; cbn [check_report_loop].
  destruct (get_screen_pos A fire (player_azimuth w)) as [[x y] |].
  - fold (relative_angle (azimuth fire) (check_report_cross_azimuth w)).
    unfold angle_diff, relative_angle.
    rewrite <- andb_assoc.
    now destruct (negb (reported fire) && _).
  - now rewrite andb_false_r.
Qed.

Lemma scan_hit (pre : list Fire) (fire : Fire) (post : list Fire) :
  (forall f, In f pre -> reportable A w f = false) ->
  reportable A w fire = true ->
  report_scan A w (pre ++ fire :: post)
  = Some (pre ++ set_reported fire true :: post).
Proof.
  intros Hpre Hfire. induction pre as [| f pre IH]; cbn [app].
  - now rewrite scan_cons, Hfire.
  - rewrite scan_cons, (Hpre f (or_introl eq_refl)).
    rewrite IH by (intros g Hg; apply Hpre; now right).
    reflexivity.
Qed.

Lemma scan_miss (fs : list Fire) :
  (forall f, In f fs -> reportable A w f = false) -> report_scan A w fs = None.
Proof.
  induction fs as [| f fs IH]; intros H; [reflexivity |].
  rewrite scan_cons, (H f (or_introl eq_refl)).
  rewrite IH by (intros g Hg; apply H; now right).
  reflexivity.
Qed.

(** Every list either holds no reportable fire or splits at its first one. *)
Lemma first_reportable (fs : list Fire) :
  (forall f, In f fs -> reportable A w f = false) \/
  (exists pre fire post,
      fs = pre ++ fire :: post /\
      (forall f, In f pre -> reportable A w f = false) /\
      reportable A w fire = true).
Proof.
  induction fs as [| f fs IH].
  - left. intros f [].
  - destruct (reportable A w f) eqn:Hf.
    + right. exists [], f, fs. repeat split; [intros g [] | exact Hf].
    + destruct IH as [Hall | (pre & fire & post & -> & Hpre & Hfire)].
      * left. intros g [<- | Hg]; [exact Hf | now apply Hall].
      * right. exists (f :: pre), fire, post. repeat split; [| exact Hfire].
        intros g [<- | Hg]; [exact Hf | now apply Hpre].
Qed.

Lemma check_report_scan :
  check_report A w =
  match report_scan A w (fires w) with
  | Some fs =>
      print
        (with_reports (with_fires w fs)
           (reports w
            ++ [(check_report_cross_azimuth w, snd (crosshair_pos w))]))
        (FireReported (check_report_cross_azimuth w)
           (int_of_float (declination_float (snd (crosshair_pos w)))))
  | None => w
  end.
Proof.
  unfold check_report, report_scan. now destruct (crosshair_pos w) as [cx cy].
Qed.

Lemma check_report_cases :
  (check_report A w = w /\
   forall f, In f (fires w) -> reportable A w f = false) \/
  (exists pre fire post,
      fires w = pre ++ fire :: post /\
      (forall f, In f pre -> reportable A w f = false) /\
      reportable A w fire = true /\
      check_report A w = after_hit w pre fire post).
Proof.
  rewrite check_report_scan.
  destruct (first_reportable (fires w))
    as [Hall | (pre & fire & post & Hsplit & Hpre & Hfire)].
  - left. now rewrite scan_miss.
  - right. exists pre, fire, post. repeat split; try assumption.
    now rewrite Hsplit, scan_hit.
Qed.

End ReportScan.

(** The loop's test is the test of the claim: the binary64 square root is
    below 50 exactly when the squared distance is below 2500. *)
Lemma reportable_exact (A : Assets) (w : World) (fire : Fire) :
  reportable A w fire = spec_reportable A w fire.
Proof.
  unfold reportable, spec_reportable, relative_angle, distance_diff.
  destruct (get_screen_pos A fire (player_azimuth w)) as [[x y] |];
    [| reflexivity].
  rewrite sqrt_below_50; [reflexivity |].
  rewrite !Z.pow_2_r.
  pose proof (Z.square_nonneg (x - fst (crosshair_pos w))).
  pose proof (Z.square_nonneg (y - snd (crosshair_pos w))). lia.
Qed.

(** ** The spawner *)

Lemma randint_range (a b : Z) (r : Rng) :
  a <= b -> a <= fst (randint a b r) <= b.
Proof.
  intros Hab. unfold randint, next_raw; cbn [fst].
  pose proof (Z.mod_pos_bound (draws r (cursor r)) (b - a + 1)). lia.
Qed.

Lemma choice_near_far (r : Rng) :
  fst (choice [100; 200] r) = 100 \/ fst (choice [100; 200] r) = 200.
Proof.
  unfold choice, next_raw; cbn [fst length].
  pose proof (Z.mod_pos_bound (draws r (cursor r)) (Z.of_nat 2)) as Hm.
  destruct (Z.to_nat (draws r (cursor r) mod Z.of_nat 2)) as [| [| n]] eqn:E;
    cbn [nth]; auto.
  lia.
Qed.

Lemma skip_draws_skip (r : Rng) (n m : nat) :
  skip_draws (skip_draws r n) m = skip_draws r (m + n).
Proof.
  unfold skip_draws; cbn [draws cursor]. f_equal. lia.
Qed.

(** The fire a successful attempt of generator [r] constructs. *)
Lemma Fire_init_fields (A : Assets) (now az dist base : Z) (r : Rng) :
  let fire := fst (Fire_init A now az dist base r) in
  azimuth fire = az /\ distance fire = dist /\
  layer fire = (if 150 <? dist then far else mid) /\
  reported fire = false /\ spawn_time fire = now /\
  0 <= terrain_offset fire <= 80 /\
  (lifetime fire == inject_Z base * lifetime_multiplier (weather A))%Q.
Proof.
  unfold Fire_init.
  pose proof (randint_range 0 80 r ltac:(lia)) as Hoff.
  destruct (randint 0 80 r) as [off r']; cbn [fst] in *.
  cbn [azimuth distance layer reported spawn_time terrain_offset lifetime].
  repeat split; try reflexivity; try lia.
  destruct (weather A); cbn [lifetime_multiplier]; try reflexivity.
  symmetry; apply Qmult_1_r.
Qed.

Section Spawner.

Variable A : Assets.
Variable now : Z.

(** One iteration of the loop, in terms of the first attempt. *)
Lemma generate_fire_loop_step (n : nat) (w : World) :
  generate_fire_loop A now (S n) w =
  if attempt_has_terrain A (random w) 0 then
    let r2 := skip_draws (random w) 2 in
    let (base_lifetime, r3) := randint 10000 50000 r2 in
    let (fire, r4) :=
      Fire_init A now (attempt_azimuth (random w) 0)
        (attempt_distance (random w) 0) base_lifetime r3 in
    with_random (with_fires w (fires w ++ [fire])) r4
  else generate_fire_loop A now n (with_random w (skip_draws (random w) 2)).
Proof. reflexivity. Qed.

Lemma attempt_shift (r : Rng) (k : nat) :
  attempt_has_terrain A (skip_draws r 2) k = attempt_has_terrain A r (S k).
Proof.
  unfold attempt_has_terrain, attempt_azimuth, attempt_distance.
  rewrite skip_draws_skip.
  now replace (2 * k + 2)%nat with (2 * S k)%nat by lia.
Qed.

Lemma attempt_fields_shift (r : Rng) (k : nat) :
  attempt_azimuth (skip_draws r 2) k = attempt_azimuth r (S k) /\
  attempt_distance (skip_draws r 2) k = attempt_distance r (S k).
Proof.
  unfold attempt_azimuth, attempt_distance.
  rewrite skip_draws_skip.
  now replace (2 * k + 2)%nat with (2 * S k)%nat by lia.
Qed.

(** What a spawn cycle of at most [n] attempts does: either every attempt
    misses the terrain and only the message is printed, or the first
    attempt that finds terrain appends its fire. *)
Lemma generate_fire_loop_cases (n : nat) (w : World) :
  let w' := generate_fire_loop A now n w in
  reports w' = reports w /\ player_azimuth w' = player_azimuth w /\
  ((fires w' = fires w /\
    stdout w' = stdout w ++ [CouldNotFindTerrain max_attempts] /\
    forall k, (k < n)%nat -> attempt_has_terrain A (random w) k = false) \/
   (exists k fire base,
       (k < n)%nat /\
       (forall j, (j < k)%nat -> attempt_has_terrain A (random w) j = false) /\
       attempt_has_terrain A (random w) k = true /\
       fires w' = fires w ++ [fire] /\ stdout w' = stdout w /\
       azimuth fire = attempt_azimuth (random w) k /\
       distance fire = attempt_distance (random w) k /\
       layer fire = (if 150 <? distance fire then far else mid) /\
       reported fire = false /\ spawn_time fire = now /\
       10000 <= base <= 50000 /\
       (lifetime fire == inject_Z base * lifetime_multiplier (weather A))%Q)).
Proof.
  revert w; induction n as [| n IH]; intros w.
  - cbn. split; [reflexivity |]. split; [reflexivity |].
    left. split; [reflexivity |]. split; [reflexivity |]. intros k Hk; lia.
  - cbv zeta. rewrite generate_fire_loop_step.
    destruct (attempt_has_terrain A (random w) 0) eqn:H0.
    + cbv zeta.
      pose proof (randint_range 10000 50000 (skip_draws (random w) 2)
                    ltac:(lia)) as Hbase.
      destruct (randint 10000 50000 _) as [base r3]; cbn [fst] in Hbase.
      pose proof (Fire_init_fields A now (attempt_azimuth (random w) 0)
                    (attempt_distance (random w) 0) base r3) as Hf.
      destruct (Fire_init A now _ _ base r3) as [fire r4].
      cbv zeta in Hf; cbn [fst] in Hf.
      destruct Hf as (Haz & Hd & Hl & Hr & Hs & _ & Hlife).
      split; [reflexivity |]. split; [reflexivity |].
      right. exists 0%nat, fire, base.
      split; [lia |]. split; [intros j Hj; lia |].
      rewrite Hd.
      repeat (split; [first [assumption | reflexivity | lia] |]).
      exact Hlife.
    + specialize (IH (with_random w (skip_draws (random w) 2))).
      cbv zeta in IH. cbn [reports player_azimuth fires stdout random
                             with_random] in IH.
      destruct IH as (Hrep & Hpa & [(Hfs & Hout & Hall)
                                   | (k & fire & base & Hk & Hpre & Hhit
                                      & Hfs & Hout & Haz & Hd & Hrest)]).
      * split; [exact Hrep |]. split; [exact Hpa |].
        left. split; [exact Hfs |]. split; [exact Hout |].
        intros [| k] Hk; [exact H0 |].
        rewrite <- attempt_shift. apply Hall. lia.
      * split; [exact Hrep |]. split; [exact Hpa |].
        right. exists (S k), fire, base.
        destruct (attempt_fields_shift (random w) k) as [Ea Ed].
        rewrite attempt_shift in Hhit. rewrite Ea in Haz. rewrite Ed in Hd.
        split; [lia |]. split.
        { intros [| j] Hj; [exact H0 |].
          rewrite <- attempt_shift. apply Hpre. lia. }
        repeat (split; [assumption |]). exact Hrest.
Qed.

End Spawner.

(** ** The expiry sweep *)

Lemma fires_to_remove_filter (which : Layer) (now : Z) (fs : list Fire) :
  fires_to_remove which now fs =
  filter (fun f => Layer_eqb (layer f) which && is_expired f now) fs.
Proof.
  induction fs as [| f fs IH]; [reflexivity |].
  cbn [fires_to_remove filter]. rewrite IH.
  now destruct (Layer_eqb (layer f) which), (is_expired f now).
Qed.

Lemma list_remove_head (x : Fire) (l : list Fire) : list_remove x (x :: l) = l.
Proof.
  cbn [list_remove]. now destruct (Fire_eq_dec x x).
Qed.

Lemma list_remove_other (x y : Fire) (l : list Fire) :
  x <> y -> list_remove x (y :: l) = y :: list_remove x l.
Proof.
  intros Hne. cbn [list_remove]. now destruct (Fire_eq_dec x y).
Qed.

(** Removing fires that satisfy [p] leaves in place a head that does not. *)
Lemma remove_all_keeps_head (p : Fire -> bool) (x : Fire)
    (ts l : list Fire) :
  p x = false -> (forall y, In y ts -> p y = true) ->
  remove_all ts (x :: l) = x :: remove_all ts l.
Proof.
  intros Hx. revert l; induction ts as [| t ts IH]; intros l Hts.
  - reflexivity.
  - unfold remove_all in *; cbn [fold_left].
    rewrite list_remove_other.
    + apply IH. intros y Hy; apply Hts; now right.
    + intros ->. rewrite (Hts x (or_introl eq_refl)) in Hx. discriminate.
Qed.

(** The two passes of a sweep amount to one filter. *)
Lemma remove_all_filter (p : Fire -> bool) (fs : list Fire) :
  remove_all (filter p fs) fs = filter (fun f => negb (p f)) fs.
Proof.
  induction fs as [| f fs IH]; [reflexivity |].
  cbn [filter]. destruct (p f) eqn:Hp; cbn [negb].
  - unfold remove_all in *; cbn [fold_left].
    now rewrite list_remove_head.
  - rewrite (remove_all_keeps_head p) by
      (try assumption; intros y Hy; now apply filter_In in Hy).
    now rewrite IH.
Qed.

Lemma draw_far_fires (now : Z) (w : World) :
  fires (draw_far now w) =
  filter (fun f => negb (Layer_eqb (layer f) far && is_expired f now))
    (fires w).
Proof.
  unfold draw_far; cbn [fires with_fires].
  now rewrite fires_to_remove_filter, remove_all_filter.
Qed.

Lemma draw_mid_fires (now : Z) (w : World) :
  fires (draw_mid now w) =
  filter (fun f => negb (Layer_eqb (layer f) mid && is_expired f now))
    (fires w).
Proof.
  unfold draw_mid; cbn [fires with_fires].
  now rewrite fires_to_remove_filter, remove_all_filter.
Qed.

(** Both sweeps of a tick together drop exactly the expired fires. *)
Lemma sweep_fires (now : Z) (w : World) :
  fires (draw_mid now (draw_far now w)) =
  filter (fun f => negb (is_expired f now)) (fires w).
Proof.
  rewrite draw_mid_fires, draw_far_fires.
  induction (fires w) as [| f fs IH]; [reflexivity |].
  cbn [filter].
  destruct (layer f) eqn:Hl, (is_expired f now) eqn:He;
    cbn [Layer_eqb andb negb filter]; rewrite ?Hl, ?He;
    cbn [Layer_eqb andb negb]; now rewrite IH.
Qed.

Lemma is_expired_iff (f : Fire) (now : Z) :
  is_expired f now = true <->
  (lifetime f < inject_Z (now - spawn_time f))%Q.
Proof.
  unfold is_expired. rewrite negb_true_iff.
  split.
  - intros H. apply Qnot_le_lt. intros Hle.
    apply Qle_bool_iff in Hle. congruence.
  - intros H. destruct (Qle_bool _ _) eqn:E; [| reflexivity].
    apply Qle_bool_iff in E. exfalso. exact (Qlt_not_le _ _ H E).
Qed.


(** ** One tick *)

Lemma carried_over_refl (fs : list Fire) : carried_over fs fs.
Proof. intros f Hf. now exists f. Qed.

Lemma carried_over_trans (fs gs hs : list Fire) :
  carried_over fs gs -> carried_over gs hs -> carried_over fs hs.
Proof.
  intros H1 H2 f Hf.
  destruct (H1 f Hf) as (g & Hg & Efg).
  destruct (H2 g Hg) as (h & Hh & Egh).
  exists h. split; [exact Hh |]. unfold same_entity in *. congruence.
Qed.

Lemma carried_over_app (fs extra : list Fire) :
  carried_over fs (fs ++ extra).
Proof.
  intros f Hf. exists f. split; [apply in_or_app; now left | reflexivity].
Qed.

Lemma check_report_carries (A : Assets) (w : World) :
  carried_over (fires w) (fires (check_report A w)).
Proof.
  destruct (check_report_cases A w)
    as [[-> _] | (pre & fire & post & Hsplit & _ & _ & ->)].
  - apply carried_over_refl.
  - unfold after_hit; cbn [fires print with_reports with_fires].
    rewrite Hsplit. intros f Hf.
    apply in_app_or in Hf as [Hf | [<- | Hf]].
    + exists f. split; [apply in_or_app; now left | reflexivity].
    + exists (set_reported fire true).
      split; [apply in_or_app; right; now left | reflexivity].
    + exists f. split; [apply in_or_app; right; now right | reflexivity].
Qed.

Lemma check_report_reports (A : Assets) (w : World) :
  exists added, reports (check_report A w) = reports w ++ added.
Proof.
  destruct (check_report_cases A w)
    as [[-> _] | (pre & fire & post & _ & _ & _ & ->)].
  - exists []. now rewrite app_nil_r.
  - now eexists.
Qed.

Lemma handle_event_effect (A : Assets) (w : World) (e : Event) :
  carried_over (fires w) (fires (handle_event A w e)) /\
  exists added, reports (handle_event A w e) = reports w ++ added.
Proof.
  assert (Hsame : carried_over (fires w) (fires w) /\
                  exists added, reports w = reports w ++ added).
  { split; [apply carried_over_refl | exists []; now rewrite app_nil_r]. }
  destruct e as [| [| |] | pos |]; cbn [handle_event]; try exact Hsame.
  - destruct (osborne_open w); [| exact Hsame].
    split; [apply check_report_carries | apply check_report_reports].
  - destruct (osborne_open w); exact Hsame.
Qed.

Lemma events_effect (A : Assets) (es : list Event) (w : World) :
  carried_over (fires w) (fires (fold_left (handle_event A) es w)) /\
  exists added, reports (fold_left (handle_event A) es w) = reports w ++ added.
Proof.
  revert w; induction es as [| e es IH]; intros w; cbn [fold_left].
  - split; [apply carried_over_refl | exists []; now rewrite app_nil_r].
  - destruct (handle_event_effect A w e) as [Hc (a1 & Hr)].
    destruct (IH (handle_event A w e)) as [Hc' (a2 & Hr')].
    split; [exact (carried_over_trans _ _ _ Hc Hc') |].
    exists (a1 ++ a2). now rewrite Hr', Hr, app_assoc.
Qed.

Lemma generate_fire_effect (A : Assets) (now : Z) (w : World) :
  carried_over (fires w) (fires (generate_fire A now w)) /\
  reports (generate_fire A now w) = reports w.
Proof.
  unfold generate_fire.
  destruct (generate_fire_loop_cases A now (Z.to_nat max_attempts) w)
    as (Hr & _ & [(Hf & _) | (k & fire & base & _ & _ & _ & Hf & _)]);
    cbv zeta in *; rewrite Hf; split; try exact Hr.
  - apply carried_over_refl.
  - apply carried_over_app.
Qed.

(** The part of a tick that precedes the sweep keeps every entity and only
    appends to the reports. *)
Lemma frame_effect (A : Assets) (t : Tick) (w : World) :
  exists before_sweep,
    frame A t w
    = draw_mid (current_time t) (draw_far (current_time t) before_sweep) /\
    carried_over (fires w) (fires before_sweep) /\
    exists added, reports before_sweep = reports w ++ added.
Proof.
  unfold frame.
  destruct (events_effect A (events t) w) as [Hc Hr].
  set (w1 := fold_left (handle_event A) (events t) w) in *.
  set (w2 := if left_held t then _ else w1).
  assert (H2 : fires w2 = fires w1 /\ reports w2 = reports w1)
    by (subst w2; now destruct (left_held t)).
  clearbody w2.
  set (w3 := if right_held t then _ else w2).
  assert (H3 : fires w3 = fires w2 /\ reports w3 = reports w2)
    by (subst w3; now destruct (right_held t)).
  clearbody w3.
  eexists. split; [reflexivity |].
  destruct H2 as [F2 R2], H3 as [F3 R3].
  destruct (SFleb (next_fire_time w3) (float_of_int (current_time t))).
  - destruct (generate_fire_effect A (current_time t) w3) as [Hg Hgr].
    destruct (randint 4000 8000 _) as [delay r].
    cbn [fires reports print with_next_fire_time with_random].
    rewrite Hgr, R3, R2. split; [| exact Hr].
    apply (carried_over_trans _ _ _ Hc). now rewrite <- F2, <- F3.
  - rewrite F3, F2, R3, R2. now split.
Qed.

Lemma frame_reports (A : Assets) (t : Tick) (w : World) :
  exists added, reports (frame A t w) = reports w ++ added.
Proof.
  destruct (frame_effect A t w) as (b & -> & _ & Hr). exact Hr.
Qed.




(** * The claims *)

(** C1.  A report attempt scans the live fires in list order.  The first
    fire that is unreported, has a screen position, is less than 15 degrees
    from the aim bearing in signed angular difference and less than 50
    pixels from the aim point in Euclidean distance has its [reported] flag
    set, from false to true, with its other fields and every other fire as
    they were; exactly one record is appended to the reports; the fires
    after it are not examined.  When no fire qualifies the call returns the
    world unchanged. *)
Theorem check_report_first_match (A : Assets) (w : World) :
  (forall pre fire post,
      fires w = pre ++ fire :: post ->
      (forall f, In f pre -> spec_reportable A w f = false) ->
      spec_reportable A w fire = true ->
      reported fire = false /\
      fires (check_report A w)
      = pre
        ++ {| azimuth := azimuth fire; distance := distance fire;
              layer := layer fire; reported := true;
              terrain_offset := terrain_offset fire;
              lifetime := lifetime fire; spawn_time := spawn_time fire |}
        :: post /\
      reports (check_report A w)
      = reports w ++ [(check_report_cross_azimuth w, snd (crosshair_pos w))] /\
      length (reports (check_report A w)) = S (length (reports w)) /\
      check_report A w = after_hit w pre fire post) /\
  ((forall f, In f (fires w) -> spec_reportable A w f = false) ->
   check_report A w = w).
Proof.
  split.
  - intros pre fire post Hsplit Hpre Hfire.
    assert (Hun : reported fire = false).
    { unfold spec_reportable in Hfire.
      apply andb_true_iff in Hfire as [Hfire _].
      now apply negb_true_iff in Hfire. }
    assert (E : check_report A w = after_hit w pre fire post).
    { rewrite check_report_scan, Hsplit.
      rewrite (scan_hit A w pre fire post); [reflexivity | | ].
      - intros f Hf. rewrite reportable_exact. now apply Hpre.
      - now rewrite reportable_exact. }
    rewrite E. unfold after_hit, set_reported.
    cbn [fires reports print with_reports with_fires].
    split; [exact Hun |]. split; [reflexivity |]. split; [reflexivity |].
    split; [| reflexivity].
    rewrite length_app. cbn [length]. lia.
  - intros Hall. rewrite check_report_scan.
    rewrite (scan_miss A w (fires w)); [reflexivity |].
    intros f Hf. rewrite reportable_exact. now apply Hall.
Qed.

(** The second of two fires is the first reportable one: bearing 12 against
    an aim bearing of 10, about 30 pixels away, behind a fire at bearing 30
    that is 20 degrees off.  It comes out flagged, the first one does
    not. *)
Lemma check_report_first_match_example :
  let w := sample_world [sample_fire 30 38; sample_fire 12 38] 10 (400, 10)
             (rng_of []) in
  check_report_cross_azimuth w = 10 /\
  get_screen_pos (solid_assets Clear) (sample_fire 12 38) 10 = Some (410, 38) /\
  fires (check_report (solid_assets Clear) w)
  = [{| azimuth := 30; distance := 200; layer := far; reported := false;
        terrain_offset := 38; lifetime := 50000; spawn_time := 0 |};
     {| azimuth := 12; distance := 200; layer := far; reported := true;
        terrain_offset := 38; lifetime := 50000; spawn_time := 0 |}] /\
  reports (check_report (solid_assets Clear) w) = [(10, 10)].
Proof.
  cbv zeta.
  pose proof
    (proj1 (check_report_first_match (solid_assets Clear)
              (sample_world [sample_fire 30 38; sample_fire 12 38] 10
                 (400, 10) (rng_of [])))
       [sample_fire 30 38] (sample_fire 12 38) [] eq_refl) as H.
  destruct H as (_ & Hf & Hr & _).
  - intros f [<- | []]. vm_compute. reflexivity.
  - vm_compute. reflexivity.
  - split; [vm_compute; reflexivity |].
    split; [vm_compute; reflexivity |].
    split; [exact Hf | exact Hr].
Defined.

(** The record kept for a hit holds the aim point's pixel row, 10 here,
    where the claim expects the elevation, 43 degrees. *)
Lemma report_record_not_elevation :
  let w := sample_world [sample_fire 0 10] 0 (400, 10) (rng_of []) in
  reports (check_report (solid_assets Clear) w) = [(0, 10)] /\
  spec_aim_bearing 400 0 = 0 /\
  spec_aim_elevation 10 = 43 /\
  reports (check_report (solid_assets Clear) w)
  <> reports w ++ [(spec_aim_bearing 400 0, spec_aim_elevation 10)].
Proof.
  vm_compute. repeat split; discriminate.
Qed.

(** C2 (amended).  A report attempt either leaves the world as it was or
    appends exactly one record, the pair of the aim bearing and the aim
    point's pixel row; the elevation in degrees, the truncated
    [(300 - row)/(600/90)], only goes into the printed line.  Over a whole
    tick the reports list keeps its earlier records in place and can only
    receive new ones at its end. *)
Theorem reports_append_raw_aim (A : Assets) (w : World) :
  (check_report A w = w \/
   (reports (check_report A w)
    = reports w ++ [(check_report_cross_azimuth w, snd (crosshair_pos w))] /\
    stdout (check_report A w)
    = stdout w
      ++ [FireReported (check_report_cross_azimuth w)
            (Qtrunc (float_value
                       (declination_float (snd (crosshair_pos w)))))])) /\
  (forall t, exists added, reports (frame A t w) = reports w ++ added) /\
  (forall now, reports (generate_fire A now w) = reports w /\
               reports (draw_far now w) = reports w /\
               reports (draw_mid now w) = reports w).
Proof.
  split; [| split].
  - destruct (check_report_cases A w)
      as [[E _] | (pre & fire & post & _ & _ & _ & E)]; [now left | right].
    rewrite E; unfold after_hit; cbn [reports stdout print with_reports
                                       with_fires].
    now rewrite int_of_float_trunc.
  - intros t. apply frame_reports.
  - intros now. split; [apply generate_fire_effect | now split].
Qed.

(** One pixel from the left edge at bearing 0 the value is -74.8125: the
    program shows 286 where the floor gives 285; one row below the middle
    the elevation shown is 0 where the floor gives -1. *)
Lemma aim_readout_not_floor :
  let w := sample_world [] 0 (1, 301) (rng_of []) in
  check_report_cross_azimuth w = 286 /\
  draw_osborne_ui (solid_assets Clear) w = (286, 0, Clear) /\
  spec_aim_bearing 1 0 = 285 /\
  spec_aim_elevation 301 = -1 /\
  check_report_cross_azimuth w
  <> spec_aim_bearing (fst (crosshair_pos w)) (player_azimuth w).
Proof.
  vm_compute. repeat split; discriminate.
Qed.

(** The elevation read-out in exact arithmetic: on every screen row, and
    300 rows around, the double quotient truncates to the same integer as
    the exact [(300 - aimY) * 90 / 600]. *)
Lemma declination_exact (aim_y : Z) :
  -300 <= aim_y < 900 ->
  int_of_float (declination_float aim_y) = Z.quot ((300 - aim_y) * 90) 600.
Proof.
  intros H. apply Z.eqb_eq.
  by_range_check
    (fun y => int_of_float (declination_float y)
              =? Z.quot ((300 - y) * 90) 600)
    1200 (-300).
Qed.

(** The bearing read-out in exact arithmetic, on each of the 800 columns
    and 360 view bearings: the double of [cross_azimuth] truncates to the
    exact value truncated, except at the 170 aim points of
    [aim_rounding_shift]. *)
Lemma cross_azimuth_exact (aim_x view_bearing : Z) :
  0 <= aim_x < 800 -> 0 <= view_bearing < 360 ->
  int_of_float (cross_azimuth_float aim_x view_bearing)
  = Z.quot (3 * aim_x + 16 * (view_bearing - 75)) 16
    + aim_rounding_shift aim_x view_bearing.
Proof.
  intros Hx Hv.
  assert (H : aim_column_check bearing_offsets aim_x = true)
    by (by_range_check (aim_column_check bearing_offsets) 800 0).
  unfold aim_column_check in H. rewrite forallb_forall in H.
  apply Z.eqb_eq.
  apply (H (view_bearing, float_of_int (view_bearing - FOV / 2))).
  unfold bearing_offsets. apply in_map_iff. exists view_bearing.
  split; [reflexivity |]. apply in_range. lia.
Qed.

(** C3 (amended).  For an aim point on the screen and a view bearing in
    [[0, 360)], the instrument and a report attempt use the same aim
    bearing.  With [trunc] the rounding toward zero, it is
    [trunc(aimX/screenWidth * FOV + (viewBearing - FOV/2))] modulo 360,
    shifted by one at the 170 aim points where the binary64 evaluation ends
    on the other side of an integer: one more in column 112 at bearings 22
    to 53, in column 224 at bearings 0 to 32 and in column 272 at bearings
    0 to 23, one less in column 656 at bearings 0 to 80.  The displayed
    elevation is [trunc((300 - aimY)/(600/90))].  Rounding toward zero is
    the floor of the claim except on a negative non-integer, where it is
    one more. *)
Theorem aim_readout_truncates (A : Assets) (w : World) :
  0 <= fst (crosshair_pos w) < SCREEN_WIDTH ->
  0 <= player_azimuth w < 360 ->
  check_report_cross_azimuth w
  = (Qtrunc (spec_aim_value (fst (crosshair_pos w)) (player_azimuth w))
     + aim_rounding_shift (fst (crosshair_pos w)) (player_azimuth w))
    mod 360 /\
  fst (fst (draw_osborne_ui A w)) = check_report_cross_azimuth w /\
  (0 <= snd (crosshair_pos w) < SCREEN_HEIGHT ->
   snd (fst (draw_osborne_ui A w))
   = Qtrunc (spec_elevation_value (snd (crosshair_pos w)))) /\
  Qtrunc (spec_aim_value (fst (crosshair_pos w)) (player_azimuth w))
  = Qfloor (spec_aim_value (fst (crosshair_pos w)) (player_azimuth w))
    + (if negative_fraction
            (spec_aim_value (fst (crosshair_pos w)) (player_azimuth w))
       then 1 else 0) /\
  Qtrunc (spec_elevation_value (snd (crosshair_pos w)))
  = spec_aim_elevation (snd (crosshair_pos w))
    + (if negative_fraction (spec_elevation_value (snd (crosshair_pos w)))
       then 1 else 0).
Proof.
  unfold SCREEN_WIDTH, SCREEN_HEIGHT. intros Hx Hv.
  split; [| split; [| split; [| split]]].
  - unfold check_report_cross_azimuth.
    now rewrite cross_azimuth_exact, spec_aim_value_trunc by lia.
  - reflexivity.
  - intros Hy. unfold draw_osborne_ui. cbn [fst snd].
    now rewrite declination_exact, spec_elevation_value_trunc by lia.
  - apply Qtrunc_Qfloor.
  - apply Qtrunc_Qfloor.
Qed.

(** Column 112 at view bearing 22: the exact value is -32, the double is
    just above it, and the instrument shows 329 where truncating the exact
    value gives 328; one row below the middle the elevation shown is 0. *)
Lemma aim_readout_truncates_example :
  let w := sample_world [] 22 (112, 301) (rng_of []) in
  check_report_cross_azimuth w = 329 /\
  draw_osborne_ui (solid_assets Clear) w = (329, 0, Clear) /\
  Qtrunc (spec_aim_value 112 22) mod 360 = 328.
Proof.
  cbv zeta.
  destruct (aim_readout_truncates (solid_assets Clear)
              (sample_world [] 22 (112, 301) (rng_of [])))
    as (Hb & _).
  - vm_compute. split; [discriminate | reflexivity].
  - vm_compute. split; [discriminate | reflexivity].
  - split; [rewrite Hb; vm_compute; reflexivity |].
    split; vm_compute; reflexivity.
Defined.

(** ** Positions of the entities during a session *)

Lemma find_index_some {X : Type} (p : X -> bool) (l : list X) (i : nat) :
  find_index p l = Some i -> exists x, nth_error l i = Some x /\ p x = true.
Proof.
  revert i; induction l as [| x l IH]; intros i H; [discriminate |].
  cbn [find_index] in H. destruct (p x) eqn:Hx.
  - injection H as <-. now exists x.
  - destruct (find_index p l) as [j |]; [| discriminate].
    injection H as <-. exact (IH j eq_refl).
Qed.

Lemma find_index_first {X : Type} (p : X -> bool) (pre : list X) (x : X)
    (post : list X) :
  (forall y, In y pre -> p y = false) -> p x = true ->
  find_index p (pre ++ x :: post) = Some (length pre).
Proof.
  intros Hpre Hx. induction pre as [| y pre IH]; cbn [app find_index length].
  - now rewrite Hx.
  - rewrite (Hpre y (or_introl eq_refl)).
    rewrite IH by (intros z Hz; apply Hpre; now right).
    reflexivity.
Qed.

Lemma nth_error_middle {X : Type} (pre : list X) (x : X) (post : list X) :
  nth_error (pre ++ x :: post) (length pre) = Some x.
Proof.
  rewrite nth_error_app2 by lia. now rewrite Nat.sub_diag.
Qed.

Lemma nth_error_off_middle {X : Type} (pre : list X) (x y : X)
    (post : list X) (i : nat) :
  i <> length pre ->
  nth_error (pre ++ x :: post) i = nth_error (pre ++ y :: post) i.
Proof.
  intros Hi. destruct (Nat.lt_ge_cases i (length pre)) as [Hlt | Hge].
  - now rewrite !nth_error_app1 by exact Hlt.
  - rewrite !nth_error_app2 by exact Hge.
    destruct (i - length pre)%nat as [| k] eqn:E; [lia | reflexivity].
Qed.

Lemma reportable_unreported (A : Assets) (w : World) (f : Fire) :
  reportable A w f = true -> reported f = false.
Proof.
  unfold reportable. intros H. apply andb_true_iff in H as [H _].
  now apply negb_true_iff in H.
Qed.

Lemma reported_not_hit (A : Assets) (w : World) (i : nat) (fire : Fire) :
  nth_error (fires w) i = Some fire -> reported fire = true ->
  hit_index A w <> Some i.
Proof.
  intros Hi Hr Hhit. apply find_index_some in Hhit as (x & Hx & Hp).
  rewrite Hi in Hx. injection Hx as <-.
  apply reportable_unreported in Hp. congruence.
Qed.

Lemma check_report_keeps_reported (A : Assets) (w : World) (i : nat)
    (fire : Fire) :
  nth_error (fires w) i = Some fire -> reported fire = true ->
  nth_error (fires (check_report A w)) i = Some fire.
Proof.
  intros Hi Hr.
  destruct (check_report_cases A w)
    as [[-> _] | (pre & f & post & Hsplit & _ & Hf & ->)]; [exact Hi |].
  unfold after_hit; cbn [fires print with_reports with_fires].
  rewrite Hsplit in Hi.
  destruct (Nat.eq_dec i (length pre)) as [-> | Hne].
  - rewrite nth_error_middle in Hi. injection Hi as ->.
    apply reportable_unreported in Hf. congruence.
  - now rewrite (nth_error_off_middle pre _ f post i Hne).
Qed.

Lemma generate_fire_keeps_positions (A : Assets) (now : Z) (w : World)
    (i : nat) (fire : Fire) :
  nth_error (fires w) i = Some fire ->
  nth_error (fires (generate_fire A now w)) i = Some fire.
Proof.
  intros Hi. unfold generate_fire.
  destruct (generate_fire_loop_cases A now (Z.to_nat max_attempts) w)
    as (_ & _ & [(Hf & _) | (k & f & base & _ & _ & _ & Hf & _)]);
    cbv zeta in *; rewrite Hf; [exact Hi |].
  rewrite nth_error_app1; [exact Hi |].
  apply nth_error_Some. congruence.
Qed.

Lemma session_keeps_reported (A : Assets) (w w' : World) (i : nat)
    (fire : Fire) :
  session A w w' ->
  nth_error (fires w) i = Some fire -> reported fire = true ->
  nth_error (fires w') i = Some fire.
Proof.
  intros Hs Hi Hr.
  induction Hs as [| w' _ IH | w' pos _ IH | w' b _ IH | w' o _ IH
                   | w' now _ IH]; try exact IH.
  - exact Hi.
  - now apply check_report_keeps_reported.
  - now apply generate_fire_keeps_positions.
Qed.

Lemma reported_count_flag (pre : list Fire) (f : Fire) (post : list Fire) :
  reported f = false ->
  reported_count (pre ++ set_reported f true :: post)
  = S (reported_count (pre ++ f :: post)).
Proof.
  intros Hf. unfold reported_count.
  rewrite !filter_app, !length_app; cbn [filter set_reported reported].
  rewrite Hf; cbn [length]. lia.
Qed.

(** C4.  A flagged entity stays flagged and untouched through any session
    of report attempts, aim and bearing changes, instrument toggles and
    spawn cycles, and no report attempt of the session ever hits it again;
    the entity a report attempt hits was unflagged, is flagged afterwards
    and is not hit by the next attempt; every record appended corresponds
    to one flag going from false to true; a sweep only drops entities, it
    never rewrites one. *)
Theorem reported_once (A : Assets) (w : World) :
  (forall w' i fire,
      session A w w' ->
      nth_error (fires w) i = Some fire -> reported fire = true ->
      nth_error (fires w') i = Some fire /\ hit_index A w' <> Some i) /\
  (forall i,
      hit_index A w = Some i ->
      exists fire,
        nth_error (fires w) i = Some fire /\ reported fire = false /\
        nth_error (fires (check_report A w)) i
        = Some (set_reported fire true) /\
        hit_index A (check_report A w) <> Some i) /\
  (length (reports (check_report A w)) + reported_count (fires w)
   = length (reports w) + reported_count (fires (check_report A w)))%nat /\
  (forall now f,
      In f (fires (draw_mid now (draw_far now w))) -> In f (fires w)).
Proof.
  split; [| split; [| split]].
  - intros w' i fire Hs Hi Hr.
    pose proof (session_keeps_reported A w w' i fire Hs Hi Hr) as Hi'.
    split; [exact Hi' | now apply (reported_not_hit A w' i fire)].
  - intros i Hhit.
    destruct (check_report_cases A w)
      as [[_ Hall] | (pre & f & post & Hsplit & Hpre & Hf & E)].
    + apply find_index_some in Hhit as (x & Hx & Hp).
      apply nth_error_In in Hx. rewrite (Hall x Hx) in Hp. discriminate.
    + unfold hit_index in Hhit.
      rewrite Hsplit, (find_index_first _ pre f post Hpre Hf) in Hhit.
      injection Hhit as <-. exists f.
      assert (Hn : nth_error (fires (check_report A w)) (length pre)
                   = Some (set_reported f true)).
      { rewrite E; unfold after_hit; cbn [fires print with_reports
                                           with_fires].
        apply nth_error_middle. }
      split; [rewrite Hsplit; apply nth_error_middle |].
      split; [now apply (reportable_unreported A w) |].
      split; [exact Hn |].
      now apply (reported_not_hit A _ _ (set_reported f true)).
  - destruct (check_report_cases A w)
      as [[-> _] | (pre & f & post & Hsplit & _ & Hf & ->)]; [lia |].
    unfold after_hit; cbn [fires reports print with_reports with_fires].
    rewrite Hsplit, length_app, reported_count_flag
      by now apply (reportable_unreported A w).
    cbn [length]. lia.
  - intros now f Hf. rewrite sweep_fires in Hf.
    now apply filter_In in Hf.
Qed.

(** Aiming at a fire and reporting twice: the first attempt flags it and
    records it, the second changes nothing. *)
Lemma reported_once_example :
  let A := solid_assets Clear in
  let w := sample_world [sample_fire 0 10] 0 (400, 10) (rng_of []) in
  hit_index A w = Some 0%nat /\
  hit_index A (check_report A w) <> Some 0%nat /\
  check_report A (check_report A w) = check_report A w.
Proof.
  cbv zeta.
  destruct (proj1 (proj2 (reported_once (solid_assets Clear)
                            (sample_world [sample_fire 0 10] 0 (400, 10)
                               (rng_of []))))
              0%nat) as (fire & _ & _ & _ & Hno).
  - vm_compute. reflexivity.
  - split; [vm_compute; reflexivity |]. split; [exact Hno |].
    vm_compute. reflexivity.
Defined.

(** ** Projection onto the screen *)

Lemma relative_angle_range (az v : Z) : -180 <= relative_angle az v < 180.
Proof.
  unfold relative_angle.
  pose proof (Z.mod_pos_bound (az - v + 180) 360). lia.
Qed.

(** The comparison [abs(relative_angle) > FOV / 2] on doubles agrees with
    the integer comparison against 75 on every possible angle. *)
Lemma outside_fov_spec (rel : Z) :
  -180 <= rel < 180 -> outside_fov rel = (75 <? Z.abs rel).
Proof.
  intros H. apply eqb_prop.
  by_range_check
    (fun z => Bool.eqb (outside_fov z) (75 <? Z.abs z)) 360 (-180).
Qed.

(** The column against the specification's floor, on each of the 151
    angles of the field of view: they differ at 12 degrees only. *)
Lemma screen_x_column (rel : Z) :
  -75 <= rel <= 75 ->
  int_of_float (screen_x_float rel)
  = if rel =? 12 then 463 else spec_screen_x rel.
Proof.
  intros H. apply Z.eqb_eq.
  by_range_check
    (fun z => int_of_float (screen_x_float z)
              =? (if z =? 12 then 463 else spec_screen_x z))
    151 (-75).
Qed.

(** The column in exact arithmetic: the rounding of the division by [FOV]
    costs one pixel at 12 degrees, where the exact quotient is the integer
    464. *)
Lemma screen_x_exact (rel : Z) :
  -75 <= rel <= 75 ->
  int_of_float (screen_x_float rel)
  = if rel =? 12 then 463 else (rel + 75) * SCREEN_WIDTH / FOV.
Proof.
  intros H. apply Z.eqb_eq.
  by_range_check
    (fun z => int_of_float (screen_x_float z)
              =? (if z =? 12 then 463 else (z + 75) * SCREEN_WIDTH / FOV))
    151 (-75).
Qed.

(** Being within 75 degrees of the view bearing, modulo 360. *)
Lemma relative_angle_window (az v : Z) :
  Z.abs (relative_angle az v) <= 75 <->
  exists k, -75 <= k <= 75 /\ (az - (v + k)) mod 360 = 0.
Proof.
  unfold relative_angle. split.
  - intros H. exists ((az - v + 180) mod 360 - 180). split; [lia |].
    pose proof (Z.div_mod (az - v + 180) 360 ltac:(lia)) as E.
    replace (az - (v + ((az - v + 180) mod 360 - 180)))
      with (((az - v + 180) / 360) * 360) by lia.
    apply Z.mod_mul. lia.
  - intros (k & Hk & Hm).
    apply Z.mod_divide in Hm; [| lia]. destruct Hm as [q Hq].
    replace (az - v + 180) with (k + 180 + q * 360) by lia.
    rewrite Z.mod_add by lia. rewrite Z.mod_small by lia. lia.
Qed.

(** Seen from bearing 10, a fire at bearing 22 is 12 degrees to the right.
    The claim's column is [floor(87/150 * 800) = 464]; the program divides
    87 by 150 in binary64, gets a double just below 0.58, and draws the
    fire at column 463. *)
Lemma screen_column_463_at_12_degrees :
  relative_angle 22 10 = 12 /\
  spec_screen_x 12 = 464 /\
  get_screen_pos (solid_assets Clear) (sample_fire 22 10) 10
  = Some (463, 10) /\
  option_map fst (get_screen_pos (solid_assets Clear) (sample_fire 22 10) 10)
  <> Some (spec_screen_x (relative_angle 22 10)).
Proof.
  vm_compute. repeat split; discriminate.
Qed.

(** C5 (amended).  With [delta] the signed shortest-path difference between
    the entity's bearing and the view bearing, [get_screen_pos] returns
    [None] exactly when [|delta| > 75], that is when the bearing is not
    within 75 degrees of the view bearing modulo 360; otherwise it returns
    a position whose column is the floor of
    [(delta + FOV/2)/FOV * screenWidth], except at [delta = 12], where the
    column is 463 and the floor is 464. *)
Theorem get_screen_pos_field_of_view (A : Assets) (fire : Fire) (v : Z) :
  let delta := relative_angle (azimuth fire) v in
  (get_screen_pos A fire v = None <-> 75 < Z.abs delta) /\
  (get_screen_pos A fire v = None <->
   ~ exists k, -75 <= k <= 75 /\ (azimuth fire - (v + k)) mod 360 = 0) /\
  (Z.abs delta <= 75 ->
   exists y,
     get_screen_pos A fire v
     = Some (if delta =? 12 then 463 else spec_screen_x delta, y)) /\
  delta = (azimuth fire - v + 180) mod 360 - 180 /\
  spec_screen_x 12 = 464.
Proof.
  cbv zeta.
  pose proof (relative_angle_range (azimuth fire) v) as Hrange.
  assert (Hnone : get_screen_pos A fire v = None
                  <-> 75 < Z.abs (relative_angle (azimuth fire) v)).
  { unfold get_screen_pos. rewrite (outside_fov_spec _ Hrange).
    destruct (Z.ltb_spec 75 (Z.abs (relative_angle (azimuth fire) v)));
      split; intros H'; try reflexivity; try discriminate; lia. }
  split; [exact Hnone |]. split; [| split; [| split]].
  - rewrite Hnone, <- relative_angle_window. lia.
  - intros Hin. unfold get_screen_pos.
    rewrite (outside_fov_spec _ Hrange).
    destruct (Z.ltb_spec 75 (Z.abs (relative_angle (azimuth fire) v)));
      [lia |].
    rewrite screen_x_column by lia. now eexists.
  - reflexivity.
  - reflexivity.
Qed.

(** Seen from bearing 10, a fire at bearing 350 is 20 degrees to the left
    and drawn at column 293; a fire at bearing 100 is 90 degrees to the
    right and not on screen. *)
Lemma get_screen_pos_field_of_view_example :
  (exists y,
      get_screen_pos (solid_assets Clear) (sample_fire 350 10) 10
      = Some (293, y)) /\
  get_screen_pos (solid_assets Clear) (sample_fire 100 10) 10 = None.
Proof.
  split.
  - apply (proj1 (proj2 (proj2 (get_screen_pos_field_of_view
                                  (solid_assets Clear) (sample_fire 350 10)
                                  10)))).
    vm_compute. discriminate.
  - apply (proj1 (get_screen_pos_field_of_view
                    (solid_assets Clear) (sample_fire 100 10) 10)).
    vm_compute. reflexivity.
Defined.

(** ** Scroll of a wide layer *)

Lemma parallax_offset_range (v W : Z) :
  0 < W -> 0 <= parallax_offset v W < W.
Proof.
  intros HW. unfold parallax_offset. now apply Z.mod_pos_bound.
Qed.

(** A view bearing is not negative, and neither is the double product:
    [int] takes its floor. *)
Lemma parallax_offset_floor (v W : Z) :
  0 <= v -> 0 <= W ->
  parallax_offset v W
  = Qfloor (float_value
              (fmul (fmul (fdiv (float_of_int v) (float_of_int 360))
                          (float_of_int W))
                    (float_of_int 1)))
    mod W.
Proof.
  intros Hv HW. unfold parallax_offset.
  rewrite <- floor_of_float_floor.
  rewrite int_of_float_floor; [reflexivity |].
  repeat first [apply fmul_not_negative | apply fdiv_not_negative
               | apply float_of_int_not_negative]; lia.
Qed.

(** At bearing 207 on a 1600-pixel mask the claim's offset is
    [floor(207/360 * 1600) = 920]; the program's double product is just
    below 920 and the offset is 919, in the query as in the render. *)
Lemma parallax_offset_919_at_207_degrees :
  spec_parallax_offset 207 (get_width half_wide_mask) = 920 /\
  parallax_offset 207 (get_width half_wide_mask) = 919 /\
  screen_x_mask_column 0 half_wide_mask 207 = 919 /\
  rendered_column
    (draw_parallax_layer (sample_world [] 207 (400, 300) (rng_of []))
       wide_background 1) 0
  = Some 919 /\
  screen_x_mask_column 0 half_wide_mask 207
  <> (spec_parallax_offset 207 (get_width half_wide_mask) + 0)
     mod get_width half_wide_mask.
Proof.
  vm_compute. repeat split; discriminate.
Qed.

(** C6 (amended).  For a mask wider than the screen, the column the terrain
    query samples at screen column [x] is [(parallaxOffset + x) mod W], and
    it is the column that the scrolling render at factor 1 of a raster of
    the same width shows at [x].  [parallaxOffset] lies in [[0, W)] and is
    the product [v/360 * W] as binary64 computes it, rounded down, modulo
    [W]; this is not always the claim's [floor(v/360 * W) mod W]. *)
Theorem screen_query_matches_render (w : World) (image mask : Surface)
    (x : Z) :
  get_width image = get_width mask ->
  SCREEN_WIDTH < get_width mask ->
  0 <= x < SCREEN_WIDTH ->
  let W := get_width mask in
  let v := player_azimuth w in
  screen_x_mask_column x mask v = (parallax_offset v W + x) mod W /\
  rendered_column (draw_parallax_layer w image 1) x
  = Some (screen_x_mask_column x mask v) /\
  0 <= parallax_offset v W < W /\
  (0 <= v ->
   parallax_offset v W
   = Qfloor (float_value
               (fmul (fmul (fdiv (float_of_int v) (float_of_int 360))
                           (float_of_int W))
                     (float_of_int 1)))
     mod W).
Proof.
  unfold SCREEN_WIDTH. intros Hsame HW Hx. cbv zeta.
  assert (Hwide : (get_width mask <=? 800) = false) by (apply Z.leb_gt; lia).
  pose proof (parallax_offset_range (player_azimuth w) (get_width mask)
                ltac:(lia)) as Hoff.
  assert (Hcol : screen_x_mask_column x mask (player_azimuth w)
                 = (parallax_offset (player_azimuth w) (get_width mask) + x)
                   mod get_width mask).
  { unfold screen_x_mask_column, SCREEN_WIDTH. now rewrite Hwide. }
  split; [exact Hcol |]. split; [| split; [exact Hoff |]].
  - rewrite Hcol. unfold draw_parallax_layer, SCREEN_WIDTH.
    unfold rendered_column; rewrite Hsame, Hwide.
    fold (parallax_offset (player_azimuth w) (get_width mask)).
    set (off := parallax_offset (player_azimuth w) (get_width mask)) in *.
    cbn [fold_left blit_column]. rewrite Hsame.
    destruct (Z.leb_spec (- off + get_width mask) x) as [H2 | H2];
      destruct (Z.ltb_spec x (- off + get_width mask + get_width mask));
      destruct (Z.leb_spec (- off) x);
      destruct (Z.ltb_spec x (- off + get_width mask));
      cbn [andb]; try lia; f_equal.
    + apply (Z.mod_unique _ _ 1); lia.
    + rewrite Z.mod_small by lia. lia.
  - intros Hv. apply parallax_offset_floor; lia.
Qed.

(** At bearing 90 a 1600-pixel background is scrolled by 400 columns, and
    the query on the 1600-pixel mask samples the same column. *)
Lemma screen_query_matches_render_example :
  rendered_column
    (draw_parallax_layer (sample_world [] 90 (400, 300) (rng_of []))
       wide_background 1) 100
  = Some 500 /\
  screen_x_mask_column 100 half_wide_mask 90 = 500.
Proof.
  destruct (screen_query_matches_render
              (sample_world [] 90 (400, 300) (rng_of []))
              wide_background half_wide_mask 100)
    as (Hcol & Hshown & _).
  - reflexivity.
  - reflexivity.
  - split; [discriminate | reflexivity].
  - split; [exact Hshown | vm_compute; reflexivity].
Defined.

(** ** Lifetime and expiry *)

(** The lifetimes of [Fire.__init__] are exact: for every base the spawner
    can draw, the binary64 products by 0.5, 1.5 and 2.0 denote the
    rationals the [lifetime] field holds. *)
Lemma lifetime_products_exact (base : Z) :
  10000 <= base <= 50000 ->
  (float_value (fmul (float_of_int base) (literal 1 2))
   == inject_Z base * (1 # 2))%Q /\
  (float_value (fmul (float_of_int base) (literal 3 2))
   == inject_Z base * (3 # 2))%Q /\
  (float_value (fmul (float_of_int base) (float_of_int 2))
   == inject_Z base * 2)%Q.
Proof.
  intros H. repeat split; apply Qeq_bool_iff.
  - by_range_check (lifetime_product_exact (literal 1 2) (1 # 2))
      40001 10000.
  - by_range_check (lifetime_product_exact (literal 3 2) (3 # 2))
      40001 10000.
  - by_range_check (lifetime_product_exact (float_of_int 2) 2)
      40001 10000.
Qed.

(** Half of the odd base 10001 is the double 5000.5. *)
Lemma lifetime_products_exact_example :
  (float_value (fmul (float_of_int 10001) (literal 1 2)) == 10001 # 2)%Q.
Proof.
  destruct (lifetime_products_exact 10001) as (H & _); [lia |].
  rewrite H. reflexivity.
Defined.

(** With clear weather and the draws 12, 1, 40000, 10 the spawner builds a
    fire whose base lifetime is [10000 + 40000 = 50000], the upper end that
    a half-open interval leaves out. *)
Lemma spawn_lifetime_reaches_50000 :
  let A := solid_assets Clear in
  let w := sample_world [] 0 (400, 300) (rng_of [12; 1; 40000; 10]) in
  exists fire,
    fires (generate_fire A 5000 w) = fires w ++ [fire] /\
    ~ exists base,
        10000 <= base < 50000 /\
        (lifetime fire
         == inject_Z base * lifetime_multiplier (weather A))%Q.
Proof.
  cbv zeta. eexists. split; [vm_compute; reflexivity |].
  intros (base & Hb & Hq). unfold Qeq in Hq; cbn in Hq. lia.
Qed.

(** C7 (amended).  The lifetime of a spawned fire is a base duration drawn
    from the closed interval [10000, 50000] milliseconds multiplied by the
    weather's multiplier: 0.5 for Rainy, 1.5 for Windy, 2.0 for Hot and 1.0
    for Clear. *)
Theorem spawned_lifetime (A : Assets) (now : Z) (w : World) (fire : Fire) :
  fires (generate_fire A now w) = fires w ++ [fire] ->
  exists base,
    10000 <= base <= 50000 /\
    (lifetime fire
     == inject_Z base
        * match weather A with
          | Rainy => 1 # 2
          | Windy => 3 # 2
          | Hot => 2
          | Clear => 1
          end)%Q.
Proof.
  intros Hspawn. unfold generate_fire in Hspawn.
  destruct (generate_fire_loop_cases A now (Z.to_nat max_attempts) w)
    as (_ & _ & [(Hf & _) | (k & f & base & _ & _ & _ & Hf & _ & _ & _ & _
                              & _ & _ & Hb & Hl)]);
    cbv zeta in *; rewrite Hf in Hspawn.
  - apply (f_equal (@length Fire)) in Hspawn.
    rewrite length_app in Hspawn; cbn [length] in Hspawn. lia.
  - apply app_inv_head in Hspawn. injection Hspawn as <-.
    exists base. split; [exact Hb |].
    rewrite Hl. now destruct (weather A).
Qed.

(** In hot weather the draws 12, 1, 5000, 10 give the base 15000 and the
    lifetime 30000. *)
Lemma spawned_lifetime_example :
  exists base,
    10000 <= base <= 50000 /\
    (inject_Z 30000 == inject_Z base * 2)%Q.
Proof.
  exact (spawned_lifetime (solid_assets Hot) 5000
           (sample_world [] 0 (400, 300) (rng_of [12; 1; 5000; 10]))
           {| azimuth := 12; distance := 200; layer := far;
              reported := false; terrain_offset := 10;
              lifetime := inject_Z 15000 * 2; spawn_time := 5000 |}
           eq_refl).
Defined.



(** ** Spawning on terrain *)

Lemma attempt_mask (A : Assets) (r : Rng) (k : nat) :
  (if attempt_distance r k =? 100 then background_mid_mask A
   else background_far_mask A)
  = layer_mask A (if 150 <? attempt_distance r k then far else mid).
Proof.
  unfold attempt_distance.
  destruct (choice_near_far (snd (randint 0 359 (skip_draws r (2 * k)))))
    as [-> | ->]; reflexivity.
Qed.

(** C9.  A spawn cycle makes at most 20 attempts.  Either one of them finds
    terrain at bearing 0 of the view, on the mask of the drawn layer, and
    the fire built from the first such attempt is appended, or all 20 miss
    and the cycle ends with the live set unchanged and the message
    printed; no other outcome exists. *)
Theorem generate_fire_on_terrain (A : Assets) (now : Z) (w : World) :
  let w' := generate_fire A now w in
  (exists fire k,
      fires w' = fires w ++ [fire] /\ stdout w' = stdout w /\
      has_terrain_at_azimuth (azimuth fire) (layer_mask A (layer fire)) 0
      = true /\
      (k < 20)%nat /\
      azimuth fire = attempt_azimuth (random w) k /\
      attempt_has_terrain A (random w) k = true /\
      forall j, (j < k)%nat -> attempt_has_terrain A (random w) j = false) \/
  (fires w' = fires w /\
   stdout w' = stdout w ++ [CouldNotFindTerrain 20] /\
   forall k, (k < 20)%nat -> attempt_has_terrain A (random w) k = false).
Proof.
  cbv zeta. unfold generate_fire.
  destruct (generate_fire_loop_cases A now (Z.to_nat max_attempts) w)
    as (_ & _ & [(Hf & Hout & Hall)
                | (k & f & base & Hk & Hpre & Hhit & Hf & Hout & Haz & Hd
                   & Hl & _)]); cbv zeta in *.
  - right. repeat split; assumption.
  - left. exists f, k. repeat split; try assumption.
    unfold attempt_has_terrain in Hhit.
    now rewrite attempt_mask, <- Hd, <- Hl, <- Haz in Hhit.
Qed.

(** On the all-white strips no attempt finds terrain: nothing is spawned
    and the message is printed. *)
Lemma generate_fire_on_terrain_example :
  let w := sample_world [] 0 (400, 300) (rng_of []) in
  fires (generate_fire blank_assets 5000 w) = [] /\
  stdout (generate_fire blank_assets 5000 w) = [CouldNotFindTerrain 20].
Proof.
  cbv zeta.
  destruct (generate_fire_on_terrain blank_assets 5000
              (sample_world [] 0 (400, 300) (rng_of [])))
    as [(fire & k & Hf & _) | (Hf & Hout & _)].
  - vm_compute in Hf. discriminate.
  - split; [exact Hf | exact Hout].
Defined.

(** ** The spawner and the view bearing *)

Lemma generate_fire_loop_bearing (A : Assets) (now : Z) (n : nat)
    (w : World) (bearing : Z) :
  generate_fire_loop A now n (with_player_azimuth w bearing)
  = with_player_azimuth (generate_fire_loop A now n w) bearing.
Proof.
  revert w; induction n as [| n IH]; intros w; [reflexivity |].
  rewrite !generate_fire_loop_step.
  cbn [random with_player_azimuth].
  destruct (attempt_has_terrain A (random w) 0).
  - cbv zeta.
    destruct (randint 10000 50000 _) as [base r3].
    now destruct (Fire_init A now _ _ base r3) as [fire r4].
  - apply (IH (with_random w (skip_draws (random w) 2))).
Qed.

(** The two outcomes of a spawn cycle. *)
Lemma generate_fire_on_terrain_cases (A : Assets) (now : Z) (w : World) :
  (exists fire k,
      fires (generate_fire A now w) = fires w ++ [fire] /\
      (k < 20)%nat /\ attempt_has_terrain A (random w) k = true) \/
  (fires (generate_fire A now w) = fires w /\
   forall k, (k < 20)%nat -> attempt_has_terrain A (random w) k = false).
Proof.
  unfold generate_fire.
  destruct (generate_fire_loop_cases A now (Z.to_nat max_attempts) w)
    as (_ & _ & [(Hf & _ & Hall)
                | (k & f & base & Hk & _ & Hhit & Hf & _)]); cbv zeta in *.
  - right. split; assumption.
  - left. exists f, k. repeat split; assumption.
Qed.

(** On a wide mask the terrain test does depend on the bearing it is given:
    the mask whose left half is terrain has terrain under bearing 0 for a
    view at 0 and none for a view at 180. *)
Lemma has_terrain_depends_on_bearing :
  SCREEN_WIDTH < get_width half_wide_mask /\
  has_terrain_at_azimuth 0 half_wide_mask 0 = true /\
  has_terrain_at_azimuth 0 half_wide_mask 180 = false.
Proof. vm_compute. repeat split. Qed.

(** C10.  A spawn cycle does not read the player's bearing: run from two
    worlds that differ only in the bearing it makes the same draws, takes
    the same decision and builds the same fire, and leaves each bearing as
    it was.  Every attempt tests the terrain for a view at bearing 0, and a
    fire is spawned exactly when one of the 20 attempts passes that test,
    also on wide masks, where the test does depend on the bearing it is
    given. *)
Theorem spawn_ignores_player_bearing (A : Assets) (now : Z) (w : World)
    (bearing1 bearing2 : Z) :
  generate_fire A now (with_player_azimuth w bearing2)
  = with_player_azimuth
      (generate_fire A now (with_player_azimuth w bearing1)) bearing2 /\
  (forall k,
      attempt_has_terrain A (random (with_player_azimuth w bearing1)) k
      = has_terrain_at_azimuth (attempt_azimuth (random w) k)
          (layer_mask A (if 150 <? attempt_distance (random w) k
                         then far else mid))
          0) /\
  (fires (generate_fire A now w) <> fires w <->
   exists k, (k < 20)%nat /\ attempt_has_terrain A (random w) k = true) /\
  (exists mask az v,
      SCREEN_WIDTH < get_width mask /\
      has_terrain_at_azimuth az mask 0 <> has_terrain_at_azimuth az mask v).
Proof.
  split; [| split; [| split]].
  - unfold generate_fire. now rewrite !generate_fire_loop_bearing.
  - intros k. cbn [random with_player_azimuth].
    unfold attempt_has_terrain. now rewrite attempt_mask.
  - destruct (generate_fire_on_terrain_cases A now w)
      as [(fire & k & Hf & Hk & Hhit) | (Hf & Hall)].
    + split; [intros _; now exists k |].
      intros _ E. rewrite Hf in E.
      apply (f_equal (@length Fire)) in E.
      rewrite length_app in E; cbn [length] in E. lia.
    + split; [intros E; now elim E |].
      intros (k & Hk & Hhit). rewrite (Hall k Hk) in Hhit. discriminate.
  - exists half_wide_mask, 0, 180.
    destruct has_terrain_depends_on_bearing as (HW & -> & ->).
    split; [exact HW | discriminate].
Qed.

(** * Further properties of the sampling engine *)

(** At 12 degrees right of the view bearing the fire is drawn at column 463;
    everywhere else in the field of view the column is the exact
    [floor((delta + 75) * 800 / 150)]. *)
Lemma screen_x_exact_example :
  int_of_float (screen_x_float 12) = 463 /\
  int_of_float (screen_x_float 13) = (13 + 75) * SCREEN_WIDTH / FOV.
Proof.
  split.
  - apply (screen_x_exact 12); lia.
  - apply (screen_x_exact 13); lia.
Defined.

(** The distance test of a report attempt, on squared distances below 5000:
    [math.sqrt(n) < 50] holds exactly when [n < 2500]. *)
Lemma distance_diff_threshold (fire_x fire_y cross_x cross_y : Z) :
  (fire_x - cross_x) ^ 2 + (fire_y - cross_y) ^ 2 < 5000 ->
  flt (distance_diff fire_x fire_y cross_x cross_y) (float_of_int 50)
  = ((fire_x - cross_x) ^ 2 + (fire_y - cross_y) ^ 2 <? 2500).
Proof.
  intros H. unfold distance_diff.
  set (n := (fire_x - cross_x) ^ 2 + (fire_y - cross_y) ^ 2) in *.
  assert (Hn : 0 <= n) by (subst n; nia).
  apply eqb_prop.
  by_range_check
    (fun z => Bool.eqb (flt (fsqrt (float_of_int z)) (float_of_int 50))
                       (z <? 2500))
    5000 0.
Qed.

Lemma distance_diff_threshold_example :
  flt (distance_diff 430 40 400 0) (float_of_int 50) = false /\
  flt (distance_diff 430 39 400 0) (float_of_int 50) = true.
Proof.
  split.
  - exact (distance_diff_threshold 430 40 400 0 eq_refl).
  - exact (distance_diff_threshold 430 39 400 0 eq_refl).
Defined.

(** A mask pixel counts as terrain exactly when its three channels sum to
    less than 600, that is when their mean is below 200. *)
Lemma is_terrain_pixel_threshold (r g b : Z) :
  0 <= r <= 255 -> 0 <= g <= 255 -> 0 <= b <= 255 ->
  is_terrain_pixel (r, g, b) = (r + g + b <? 600).
Proof.
  intros Hr Hg Hb. unfold is_terrain_pixel, brightness.
  apply eqb_prop.
  by_range_check
    (fun z => Bool.eqb (flt (fdiv (float_of_int z) (float_of_int 3))
                            (float_of_int 200))
                       (z <? 600))
    766 0.
Qed.

Lemma is_terrain_pixel_threshold_example :
  is_terrain_pixel (199, 200, 200) = true /\
  is_terrain_pixel (200, 200, 200) = false.
Proof.
  split.
  - apply (is_terrain_pixel_threshold 199 200 200); lia.
  - apply (is_terrain_pixel_threshold 200 200 200); lia.
Defined.

(** The two scans of a mask column agree: the terrain test succeeds exactly
    when the height query finds a row, and the row found is the first one
    holding a terrain pixel. *)
Lemma has_terrain_iff_height_found (self : Fire) (mask : Surface) (x : Z)
    (ys : list Z) :
  has_terrain_loop mask x ys
  = match terrain_height_loop self mask x ys with
    | Some _ => true
    | None => false
    end.
Proof.
  induction ys as [| y ys IH]; [reflexivity |].
  cbn [has_terrain_loop terrain_height_loop].
  destruct (get_at mask x y) as [p |]; [| exact IH].
  now destruct (is_terrain_pixel p).
Qed.

(** Without terrain in its column a fire sits on the default row of its
    layer: 70% of the screen height for the far layer, 85% for the other,
    plus its offset. *)
Lemma fallback_rows (self : Fire) (screen_x : Z) (mask : Surface) (v : Z) :
  has_terrain_loop mask (screen_x_mask_column screen_x mask v)
    (range (get_height mask)) = false ->
  get_terrain_height_at_screen_x self screen_x mask v
  = (match layer self with far => 420 | mid => 510 end) + terrain_offset self.
Proof.
  intros H. unfold get_terrain_height_at_screen_x.
  rewrite (has_terrain_iff_height_found self) in H.
  destruct (terrain_height_loop self mask _ _); [discriminate |].
  now destruct (layer self).
Qed.

(** On the all-white mask [load_mask] falls back to, a far fire with
    offset 10 sits on row 430. *)
Lemma fallback_rows_example :
  get_terrain_height_at_screen_x (sample_fire 0 10) 400 blank_mask 0 = 430.
Proof.
  apply (fallback_rows (sample_fire 0 10) 400 blank_mask 0).
  vm_compute. reflexivity.
Defined.

(** * The rest of the program: sampling, rendering and the main loop *)

(** ** Scanning a mask column *)

Lemma range_split (n y : Z) :
  0 <= y < n -> exists rest, range n = range y ++ y :: rest.
Proof.
  intros H. unfold range.
  replace (Z.to_nat n) with (Z.to_nat y + S (Z.to_nat (n - y - 1)))%nat by lia.
  rewrite seq_app, map_app. cbn [seq map Nat.add].
  rewrite Z2Nat.id by lia. now eexists.
Qed.

Lemma get_at_inside (mask : Surface) (x y : Z) :
  0 <= x < get_width mask -> 0 <= y < get_height mask ->
  get_at mask x y = Some (pixel mask x y).
Proof.
  intros Hx Hy. unfold get_at.
  destruct (Z.leb_spec 0 x), (Z.ltb_spec x (get_width mask)),
    (Z.leb_spec 0 y), (Z.ltb_spec y (get_height mask)); try lia.
  reflexivity.
Qed.

Lemma azimuth_mask_column_inside (azimuth : Z) (mask : Surface) (v : Z) :
  0 < get_width mask ->
  0 <= azimuth_mask_column azimuth mask v < get_width mask.
Proof.
  intros HW. unfold azimuth_mask_column.
  destruct (get_width mask <=? SCREEN_WIDTH); now apply Z.mod_pos_bound.
Qed.

Lemma screen_x_mask_column_inside (screen_x : Z) (mask : Surface) (v : Z) :
  0 < get_width mask ->
  0 <= screen_x_mask_column screen_x mask v < get_width mask.
Proof.
  intros HW. unfold screen_x_mask_column.
  destruct (get_width mask <=? SCREEN_WIDTH); now apply Z.mod_pos_bound.
Qed.

Lemma has_terrain_loop_exists (mask : Surface) (x : Z) (ys : list Z) :
  0 <= x < get_width mask ->
  (forall y, In y ys -> 0 <= y < get_height mask) ->
  (has_terrain_loop mask x ys = true <->
   exists y, In y ys /\ terrain_at mask x y = true).
Proof.
  intros Hx. induction ys as [| y ys IH]; intros Hys.
  - split; [discriminate | intros (y & [] & _)].
  - cbn [has_terrain_loop].
    rewrite (get_at_inside mask x y Hx (Hys y (or_introl eq_refl))).
    fold (terrain_at mask x y).
    destruct (terrain_at mask x y) eqn:Ht.
    + split; [intros _; exists y; split; [now left | exact Ht] | reflexivity].
    + rewrite IH by (intros z Hz; apply Hys; now right).
      split; intros (z & Hz & Htz).
      * exists z. split; [now right | exact Htz].
      * destruct Hz as [<- | Hz]; [congruence |]. now exists z.
Qed.

(** The terrain test looks at one column that always lies inside the mask,
    so no pixel read fails, and it succeeds exactly when some row of that
    column holds a terrain pixel. *)
Theorem has_terrain_at_azimuth_exists (azimuth : Z) (mask : Surface)
    (v : Z) :
  0 < get_width mask ->
  let x := azimuth_mask_column azimuth mask v in
  0 <= x < get_width mask /\
  (forall y, 0 <= y < get_height mask -> get_at mask x y <> None) /\
  (has_terrain_at_azimuth azimuth mask v = true <->
   exists y, 0 <= y < get_height mask /\ terrain_at mask x y = true).
Proof.
  intros HW. cbv zeta.
  pose proof (azimuth_mask_column_inside azimuth mask v HW) as Hx.
  split; [exact Hx |]. split.
  - intros y Hy. now rewrite (get_at_inside mask _ y Hx Hy).
  - unfold has_terrain_at_azimuth.
    rewrite has_terrain_loop_exists;
      [| exact Hx | intros y Hy; now apply in_range].
    split; intros (y & Hy & Ht); exists y; split; try exact Ht;
      now apply in_range.
Qed.

Lemma has_terrain_at_azimuth_exists_example :
  has_terrain_at_azimuth 0 half_wide_mask 0 = true <->
  exists y, 0 <= y < 1 /\ terrain_at half_wide_mask 0 y = true.
Proof.
  apply (has_terrain_at_azimuth_exists 0 half_wide_mask 0). reflexivity.
Defined.

Lemma terrain_height_loop_first (self : Fire) (mask : Surface) (x y0 : Z)
    (pre post : list Z) :
  0 <= x < get_width mask -> 0 <= y0 < get_height mask ->
  (forall y, In y pre ->
             0 <= y < get_height mask /\ terrain_at mask x y = false) ->
  terrain_at mask x y0 = true ->
  terrain_height_loop self mask x (pre ++ y0 :: post)
  = Some (base_screen_y y0 (get_height mask) + terrain_offset self).
Proof.
  intros Hx Hy0 Hpre Ht. induction pre as [| y pre IH]; cbn [app].
  - cbn [terrain_height_loop]. rewrite (get_at_inside mask x y0 Hx Hy0).
    fold (terrain_at mask x y0). now rewrite Ht.
  - cbn [terrain_height_loop].
    destruct (Hpre y (or_introl eq_refl)) as [Hy Hty].
    rewrite (get_at_inside mask x y Hx Hy).
    fold (terrain_at mask x y). rewrite Hty.
    apply IH. intros z Hz. apply Hpre. now right.
Qed.

(** The height query reads a column inside the mask, takes the first row
    from the top that holds a terrain pixel, scales it to the screen and
    adds the fire's offset. *)
Theorem terrain_height_is_first_row (self : Fire) (screen_x : Z)
    (mask : Surface) (v y0 : Z) :
  0 < get_width mask ->
  0 <= y0 < get_height mask ->
  let x := screen_x_mask_column screen_x mask v in
  terrain_at mask x y0 = true ->
  (forall y, 0 <= y < y0 -> terrain_at mask x y = false) ->
  get_terrain_height_at_screen_x self screen_x mask v
  = base_screen_y y0 (get_height mask) + terrain_offset self.
Proof.
  intros HW Hy0. cbv zeta. intros Ht Habove.
  unfold get_terrain_height_at_screen_x.
  destruct (range_split (get_height mask) y0 Hy0) as [rest ->].
  rewrite (terrain_height_loop_first self mask _ y0 (range y0) rest);
    try assumption; [reflexivity | now apply screen_x_mask_column_inside |].
  intros y Hy. apply in_range in Hy. split; [lia | now apply Habove].
Qed.

(** On the mask whose left half is terrain, a fire seen at column 100 from
    bearing 0 stands on row 0. *)
Lemma terrain_height_is_first_row_example :
  get_terrain_height_at_screen_x (sample_fire 0 10) 100 half_wide_mask 0
  = 0 + 10.
Proof.
  apply (terrain_height_is_first_row (sample_fire 0 10) 100 half_wide_mask
           0 0).
  - reflexivity.
  - cbn. lia.
  - vm_compute. reflexivity.
  - intros y Hy. lia.
Defined.

(** On a mask as tall as the screen the scaled row is the mask row itself
    or, where the division rounds down, the row above it. *)
Theorem base_screen_y_full_height (y : Z) :
  0 <= y < SCREEN_HEIGHT ->
  y - 1 <= base_screen_y y SCREEN_HEIGHT <= y /\
  0 <= base_screen_y y SCREEN_HEIGHT.
Proof.
  unfold SCREEN_HEIGHT. intros H.
  assert (E : ((y - 1 <=? base_screen_y y 600) && (base_screen_y y 600 <=? y)
               && (0 <=? base_screen_y y 600)) = true).
  { by_range_check
      (fun z => (z - 1 <=? base_screen_y z 600) && (base_screen_y z 600 <=? z)
                && (0 <=? base_screen_y z 600))
      600 0. }
  apply andb_true_iff in E as [E E3]. apply andb_true_iff in E as [E1 E2].
  lia.
Qed.

(** Row 55 of a 600-row mask lands on screen row 54 or 55 (it is 54). *)
Lemma base_screen_y_full_height_example :
  55 - 1 <= base_screen_y 55 SCREEN_HEIGHT <= 55 /\
  0 <= base_screen_y 55 SCREEN_HEIGHT.
Proof.
  apply (base_screen_y_full_height 55). vm_compute.
  split; [discriminate | reflexivity].
Defined.

(** ** Missing mask files *)

Lemma has_terrain_loop_blank (mask : Surface) (x : Z) (ys : list Z) :
  (forall a b, terrain_at mask a b = false) ->
  has_terrain_loop mask x ys = false.
Proof.
  intros Hblank. induction ys as [| y ys IH]; [reflexivity |].
  cbn [has_terrain_loop]. unfold get_at.
  destruct (_ && _); [| exact IH].
  fold (terrain_at mask x y). now rewrite Hblank.
Qed.

(** When the mask files are missing, the white fallback masks hold no
    terrain at any bearing: no spawn cycle ever adds a fire, each one makes
    its 20 attempts and prints the message, and a fire already there is
    drawn on the default row of its layer.  A missing background is
    replaced by an 800-pixel surface, which is stretched over the screen
    and does not scroll. *)
Theorem missing_assets_fall_back (weather : Weather) (now : Z) (w : World) :
  let A := loaded_assets weather None None in
  (forall azimuth v l,
      has_terrain_at_azimuth azimuth (layer_mask A l) v = false) /\
  fires (generate_fire A now w) = fires w /\
  stdout (generate_fire A now w)
  = stdout w ++ [CouldNotFindTerrain max_attempts] /\
  (forall fire v x y,
      get_screen_pos A fire v = Some (x, y) ->
      y = (match layer fire with far => 420 | mid => 510 end)
          + terrain_offset fire) /\
  (forall color scroll_factor,
      draw_parallax_layer w (load_image None color) scroll_factor
      = [BlitScaled (load_image None color) (SCREEN_WIDTH, SCREEN_HEIGHT)
           (0, 0)]).
Proof.
  cbv zeta.
  assert (Hblank : forall l a b,
             terrain_at (layer_mask (loaded_assets weather None None) l) a b
             = false) by (intros l a b; now destruct l).
  assert (Hnone : forall azimuth v l,
             has_terrain_at_azimuth azimuth
               (layer_mask (loaded_assets weather None None) l) v = false).
  { intros azimuth v l. unfold has_terrain_at_azimuth.
    apply has_terrain_loop_blank. apply Hblank. }
  split; [exact Hnone |].
  assert (Hgen : fires (generate_fire (loaded_assets weather None None) now w)
                 = fires w /\
                 stdout (generate_fire (loaded_assets weather None None) now w)
                 = stdout w ++ [CouldNotFindTerrain max_attempts]).
  { unfold generate_fire.
    destruct (generate_fire_loop_cases (loaded_assets weather None None) now
                (Z.to_nat max_attempts) w)
      as (_ & _ & [(Hf & Hout & _)
                  | (k & f & base & _ & _ & Hhit & _)]); cbv zeta in *.
    - now split.
    - unfold attempt_has_terrain in Hhit.
      destruct (attempt_distance (random w) k =? 100).
      + now rewrite (Hnone _ 0 mid) in Hhit.
      + now rewrite (Hnone _ 0 far) in Hhit. }
  destruct Hgen as [Hf Hout].
  split; [exact Hf |]. split; [exact Hout |]. split.
  - intros fire v x y. unfold get_screen_pos.
    destruct (outside_fov _); [discriminate |].
    intros E. injection E as _ <-.
    fold (layer_mask (loaded_assets weather None None) (layer fire)).
    unfold get_terrain_height_at_screen_x.
    pose proof (has_terrain_iff_height_found fire
                  (layer_mask (loaded_assets weather None None) (layer fire))
                  (screen_x_mask_column
                     (int_of_float
                        (screen_x_float (relative_angle (azimuth fire) v)))
                     (layer_mask (loaded_assets weather None None)
                        (layer fire)) v)
                  (range (get_height
                            (layer_mask (loaded_assets weather None None)
                               (layer fire))))) as Hh.
    rewrite has_terrain_loop_blank in Hh by apply Hblank.
    destruct (terrain_height_loop _ _ _ _); [discriminate |].
    now destruct (layer fire).
  - intros color scroll_factor. reflexivity.
Qed.

(** ** Tiling of the screen by a wide layer *)

(** A layer wider than the screen is blitted twice, and every screen column
    is painted by exactly one of the two copies: the scroll leaves neither a
    gap nor an overlap.  A layer no wider than the screen is stretched over
    it in a single blit. *)
Theorem parallax_layer_tiles_screen (w : World) (image : Surface)
    (scroll_factor x : Z) :
  0 <= x < SCREEN_WIDTH ->
  (SCREEN_WIDTH < get_width image ->
   exists b, covering (draw_parallax_layer w image scroll_factor) x = [b]) /\
  (get_width image <= SCREEN_WIDTH ->
   draw_parallax_layer w image scroll_factor
   = [BlitScaled image (SCREEN_WIDTH, SCREEN_HEIGHT) (0, 0)]).
Proof.
  unfold SCREEN_WIDTH. intros Hx. split; intros HW.
  - unfold draw_parallax_layer, SCREEN_WIDTH.
    replace (get_width image <=? 800) with false
      by (symmetry; apply Z.leb_gt; lia).
    set (offset := _ mod get_width image).
    assert (Hoff : 0 <= offset < get_width image)
      by (apply Z.mod_pos_bound; lia).
    unfold covering; cbn [filter blit_column].
    destruct (Z.leb_spec (- offset) x);
      destruct (Z.ltb_spec x (- offset + get_width image));
      destruct (Z.leb_spec (- offset + get_width image) x);
      destruct (Z.ltb_spec x (- offset + get_width image + get_width image));
      cbn [andb]; try lia; now eexists.
  - unfold draw_parallax_layer, SCREEN_WIDTH.
    now replace (get_width image <=? 800) with true
      by (symmetry; apply Z.leb_le; lia).
Qed.

Lemma parallax_layer_tiles_screen_example :
  exists b,
    covering (draw_parallax_layer (sample_world [] 90 (400, 300) (rng_of []))
                wide_background 1) 100
    = [b].
Proof.
  apply (parallax_layer_tiles_screen
           (sample_world [] 90 (400, 300) (rng_of [])) wide_background 1 100).
  - vm_compute. split; [discriminate | reflexivity].
  - reflexivity.
Defined.

(** ** The sweeps as operations *)







(** ** Life span of a spawned fire *)

Lemma is_expired_false_iff (f : Fire) (now : Z) :
  is_expired f now = false <->
  (inject_Z (now - spawn_time f) <= lifetime f)%Q.
Proof.
  unfold is_expired. rewrite negb_false_iff. apply Qle_bool_iff.
Qed.

(** Expiry is permanent: a fire expired at one clock reading is expired at
    every later one.  A fire appended by a spawn cycle at [now] lives for at
    least 5 seconds and at most 100: it is not expired up to [now + 5000]
    and is expired after [now + 100000]. *)
Theorem spawned_fire_life_span (A : Assets) (now : Z) (w : World)
    (fire : Fire) :
  (forall f t t', t <= t' -> is_expired f t = true -> is_expired f t' = true) /\
  (fires (generate_fire A now w) = fires w ++ [fire] ->
   (forall t, t <= now + 5000 -> is_expired fire t = false) /\
   (forall t, now + 100000 < t -> is_expired fire t = true)).
Proof.
  split.
  - intros f t t' Ht He. apply is_expired_iff in He. apply is_expired_iff.
    apply (Qlt_le_trans _ _ _ He). rewrite <- Zle_Qle. lia.
  - intros Hspawn. unfold generate_fire in Hspawn.
    destruct (generate_fire_loop_cases A now (Z.to_nat max_attempts) w)
      as (_ & _ & [(Hf & _) | (k & f & base & _ & _ & _ & Hf & _ & _ & _ & _
                                & _ & Hs & Hb & Hl)]);
      cbv zeta in *; rewrite Hf in Hspawn.
    + apply (f_equal (@length Fire)) in Hspawn.
      rewrite length_app in Hspawn; cbn [length] in Hspawn. lia.
    + apply app_inv_head in Hspawn. injection Hspawn as <-.
      assert (Hlo : (5000 <= lifetime f)%Q /\ (lifetime f <= 100000)%Q).
      { rewrite Hl.
        assert (Hb1 : (10000 <= inject_Z base)%Q)
          by (change 10000%Q with (inject_Z 10000); rewrite <- Zle_Qle; lia).
        assert (Hb2 : (inject_Z base <= 50000)%Q)
          by (change 50000%Q with (inject_Z 50000); rewrite <- Zle_Qle; lia).
        destruct (weather A); cbn [lifetime_multiplier]; lra. }
      destruct Hlo as [Hlo Hhi]. split; intros t Ht.
      * apply is_expired_false_iff. rewrite Hs.
        apply Qle_trans with (inject_Z 5000); [| exact Hlo].
        rewrite <- Zle_Qle. lia.
      * apply is_expired_iff. rewrite Hs.
        apply Qle_lt_trans with (inject_Z 100000); [exact Hhi |].
        rewrite <- Zlt_Qlt. lia.
Qed.

(** In hot weather the draws 12, 1, 5000, 10 at time 5000 give a fire with
    a life time of 30000 ms: alive at 10000, gone at 105001. *)
Lemma spawned_fire_life_span_example :
  let fire :=
    {| azimuth := 12; distance := 200; layer := far; reported := false;
       terrain_offset := 10; lifetime := inject_Z 15000 * 2;
       spawn_time := 5000 |} in
  is_expired fire 10000 = false /\ is_expired fire 105001 = true.
Proof.
  cbv zeta.
  destruct (proj2 (spawned_fire_life_span (solid_assets Hot) 5000
                     (sample_world [] 0 (400, 300)
                        (rng_of [12; 1; 5000; 10]))
                     {| azimuth := 12; distance := 200; layer := far;
                        reported := false; terrain_offset := 10;
                        lifetime := inject_Z 15000 * 2;
                        spawn_time := 5000 |}) eq_refl) as [Hlow Hhigh].
  split; [apply Hlow | apply Hhigh]; lia.
Defined.

(** ** The instrument read-out *)

(** With the aim point on the screen the elevation shown, which is also the
    declination a report prints, stays between -44 and 45 degrees, and it
    reads 0 on the 13 rows from 294 to 306. *)
Theorem declination_on_screen (A : Assets) (w : World) :
  0 <= snd (crosshair_pos w) < SCREEN_HEIGHT ->
  let shown := snd (fst (draw_osborne_ui A w)) in
  shown = int_of_float (declination_float (snd (crosshair_pos w))) /\
  -44 <= shown <= 45 /\
  (shown = 0 <-> 294 <= snd (crosshair_pos w) <= 306).
Proof.
  unfold SCREEN_HEIGHT. intros H. cbv zeta.
  unfold draw_osborne_ui; cbn [fst snd].
  set (y := snd (crosshair_pos w)) in *.
  assert (E : ((-44 <=? int_of_float (declination_float y))
               && (int_of_float (declination_float y) <=? 45)
               && Bool.eqb (int_of_float (declination_float y) =? 0)
                           ((294 <=? y) && (y <=? 306))) = true).
  { by_range_check
      (fun z => (-44 <=? int_of_float (declination_float z))
                && (int_of_float (declination_float z) <=? 45)
                && Bool.eqb (int_of_float (declination_float z) =? 0)
                            ((294 <=? z) && (z <=? 306)))
      600 0. }
  apply andb_true_iff in E as [E E3]. apply andb_true_iff in E as [E1 E2].
  apply eqb_prop in E3.
  split; [reflexivity |]. split; [lia |].
  split; intros H0.
  - apply Z.eqb_eq in H0. rewrite H0 in E3. symmetry in E3.
    apply andb_true_iff in E3. lia.
  - apply Z.eqb_eq. rewrite E3. apply andb_true_iff. lia.
Qed.

Lemma declination_on_screen_example :
  -44 <= snd (fst (draw_osborne_ui (solid_assets Clear)
                     (sample_world [] 0 (400, 599) (rng_of []))))
  <= 45.
Proof.
  apply (declination_on_screen (solid_assets Clear)
           (sample_world [] 0 (400, 599) (rng_of []))).
  vm_compute. split; [discriminate | reflexivity].
Defined.

(** For every view bearing, aiming at the middle column reads the view
    bearing itself, aiming at the left edge reads 75 degrees less and
    aiming at the last column 74 degrees more, modulo 360. *)
Theorem aim_bearing_across_screen (w : World) :
  0 <= player_azimuth w < 360 ->
  (fst (crosshair_pos w) = SCREEN_WIDTH / 2 ->
   check_report_cross_azimuth w = player_azimuth w) /\
  (fst (crosshair_pos w) = 0 ->
   check_report_cross_azimuth w = (player_azimuth w - 75) mod 360) /\
  (fst (crosshair_pos w) = SCREEN_WIDTH - 1 ->
   check_report_cross_azimuth w = (player_azimuth w + 74) mod 360).
Proof.
  intros Hv. unfold check_report_cross_azimuth.
  set (v := player_azimuth w) in *.
  split; [| split]; intros ->; apply Z.eqb_eq.
  - by_range_check
      (fun z => int_of_float (cross_azimuth_float (SCREEN_WIDTH / 2) z)
                mod 360 =? z)
      360 0.
  - by_range_check
      (fun z => int_of_float (cross_azimuth_float 0 z) mod 360
                =? (z - 75) mod 360)
      360 0.
  - by_range_check
      (fun z => int_of_float (cross_azimuth_float (SCREEN_WIDTH - 1) z)
                mod 360 =? (z + 74) mod 360)
      360 0.
Qed.

Lemma aim_bearing_across_screen_example :
  check_report_cross_azimuth (sample_world [] 350 (799, 300) (rng_of []))
  = 64.
Proof.
  apply (aim_bearing_across_screen
           (sample_world [] 350 (799, 300) (rng_of []))).
  - vm_compute. split; [discriminate | reflexivity].
  - reflexivity.
Defined.

(** ** Order of the fires on the screen *)

Lemma screen_x_step (d : Z) :
  -75 <= d < 75 ->
  int_of_float (screen_x_float d) < int_of_float (screen_x_float (d + 1)).
Proof.
  intros H. apply Z.ltb_lt.
  by_range_check
    (fun z => int_of_float (screen_x_float z)
              <? int_of_float (screen_x_float (z + 1)))
    150 (-75).
Qed.

Lemma screen_x_increasing (d1 d2 : Z) :
  -75 <= d1 -> d1 < d2 -> d2 <= 75 ->
  int_of_float (screen_x_float d1) < int_of_float (screen_x_float d2).
Proof.
  intros H1 Hlt H2.
  replace d2 with (d1 + 1 + Z.of_nat (Z.to_nat (d2 - d1 - 1))) in * by lia.
  induction (Z.to_nat (d2 - d1 - 1)) as [| n IH].
  - rewrite Z.add_0_r. apply screen_x_step. lia.
  - apply Z.lt_trans with
      (int_of_float (screen_x_float (d1 + 1 + Z.of_nat n))).
    + apply IH; lia.
    + replace (d1 + 1 + Z.of_nat (S n)) with (d1 + 1 + Z.of_nat n + 1)
        by lia.
      apply screen_x_step. lia.
Qed.

Lemma get_screen_pos_some (A : Assets) (fire : Fire) (v x y : Z) :
  get_screen_pos A fire v = Some (x, y) ->
  Z.abs (relative_angle (azimuth fire) v) <= 75 /\
  x = int_of_float (screen_x_float (relative_angle (azimuth fire) v)).
Proof.
  unfold get_screen_pos.
  rewrite (outside_fov_spec _ (relative_angle_range (azimuth fire) v)).
  destruct (Z.ltb_spec 75 (Z.abs (relative_angle (azimuth fire) v)));
    [discriminate |].
  intros E. injection E as <- _. now split.
Qed.

(** Fires on the screen appear in the order of their bearings: of two
    visible fires the one further to the right of the view bearing is drawn
    at a strictly larger column.  Every column lies between 0 and 800, and
    800, one past the last screen column, is reached only at exactly 75
    degrees to the right. *)
Theorem screen_columns_ordered (A : Assets) (f1 f2 : Fire)
    (v x1 y1 x2 y2 : Z) :
  get_screen_pos A f1 v = Some (x1, y1) ->
  get_screen_pos A f2 v = Some (x2, y2) ->
  (relative_angle (azimuth f1) v < relative_angle (azimuth f2) v ->
   x1 < x2) /\
  0 <= x1 <= SCREEN_WIDTH /\
  (x1 = SCREEN_WIDTH <-> relative_angle (azimuth f1) v = 75).
Proof.
  intros H1 H2.
  apply get_screen_pos_some in H1 as [Hd1 ->].
  apply get_screen_pos_some in H2 as [Hd2 ->].
  set (d1 := relative_angle (azimuth f1) v) in *.
  assert (Hlo : int_of_float (screen_x_float (-75)) = 0)
    by (vm_compute; reflexivity).
  assert (Hhi : int_of_float (screen_x_float 75) = SCREEN_WIDTH)
    by (vm_compute; reflexivity).
  unfold SCREEN_WIDTH in *.
  split; [intros Hlt; apply screen_x_increasing; lia |].
  assert (Hge : 0 <= int_of_float (screen_x_float d1)).
  { destruct (Z.eq_dec d1 (-75)) as [-> | Hne]; [lia |].
    rewrite <- Hlo. apply Z.lt_le_incl, screen_x_increasing; lia. }
  destruct (Z.eq_dec d1 75) as [E | Hne].
  - rewrite E, Hhi. repeat split; lia.
  - assert (Hlt : int_of_float (screen_x_float d1) < 800)
      by (rewrite <- Hhi; apply screen_x_increasing; lia).
    split; [lia |]. split; intros; lia.
Qed.

(** Seen from bearing 10, the fire at bearing 350 is drawn at column 293,
    left of the fire at bearing 20, at column 453. *)
Lemma screen_columns_ordered_example :
  get_screen_pos (solid_assets Clear) (sample_fire 350 10) 10
  = Some (293, 10) /\
  get_screen_pos (solid_assets Clear) (sample_fire 20 10) 10
  = Some (453, 10) /\
  293 < 453.
Proof.
  assert (H1 : get_screen_pos (solid_assets Clear) (sample_fire 350 10) 10
               = Some (293, 10)) by (vm_compute; reflexivity).
  assert (H2 : get_screen_pos (solid_assets Clear) (sample_fire 20 10) 10
               = Some (453, 10)) by (vm_compute; reflexivity).
  split; [exact H1 |]. split; [exact H2 |].
  apply (proj1 (screen_columns_ordered _ _ _ _ _ _ _ _ H1 H2)).
  vm_compute. reflexivity.
Defined.

(** ** What each stage of an iteration touches *)

Lemma frame_stages (A : Assets) (t : Tick) (w : World) :
  frame A t w
  = draw_mid (current_time t)
      (draw_far (current_time t)
         (after_spawn A t (after_keys t (after_events A t w)))).
Proof. reflexivity. Qed.

Lemma check_report_controls (A : Assets) (w : World) :
  same_controls w (check_report A w) /\
  next_fire_time (check_report A w) = next_fire_time w /\
  random (check_report A w) = random w.
Proof.
  destruct (check_report_cases A w)
    as [[-> _] | (pre & fire & post & _ & _ & _ & ->)];
    repeat split; reflexivity.
Qed.

Lemma same_controls_refl (w : World) : same_controls w w.
Proof. repeat split. Qed.

Lemma same_controls_trans (w1 w2 w3 : World) :
  same_controls w1 w2 -> same_controls w2 w3 -> same_controls w1 w3.
Proof.
  unfold same_controls. intros (A1 & B1 & C1 & D1) (A2 & B2 & C2 & D2).
  repeat split; congruence.
Qed.

Lemma generate_fire_loop_controls (A : Assets) (now : Z) (n : nat)
    (w : World) :
  same_controls w (generate_fire_loop A now n w) /\
  next_fire_time (generate_fire_loop A now n w) = next_fire_time w.
Proof.
  revert w; induction n as [| n IH]; intros w.
  - repeat split.
  - rewrite generate_fire_loop_step.
    destruct (attempt_has_terrain A (random w) 0).
    + cbv zeta. destruct (randint 10000 50000 _) as [base r3].
      destruct (Fire_init A now _ _ base r3) as [fire r4].
      repeat split.
    + apply (IH (with_random w (skip_draws (random w) 2))).
Qed.

Lemma after_spawn_controls (A : Assets) (t : Tick) (w : World) :
  same_controls w (after_spawn A t w) /\
  reports (after_spawn A t w) = reports w.
Proof.
  unfold after_spawn.
  destruct (SFleb _ _); [| split; [apply same_controls_refl | reflexivity]].
  destruct (generate_fire_loop_controls A (current_time t)
              (Z.to_nat max_attempts) w) as [Hc _].
  destruct (generate_fire_effect A (current_time t) w) as [_ Hr].
  fold (generate_fire A (current_time t) w) in Hc.
  destruct (randint 4000 8000 _) as [delay r].
  split; [exact Hc | exact Hr].
Qed.

Lemma handle_event_bearing (A : Assets) (w : World) (e : Event) :
  player_azimuth (handle_event A w e) = player_azimuth w /\
  next_fire_time (handle_event A w e) = next_fire_time w /\
  random (handle_event A w e) = random w.
Proof.
  destruct (check_report_controls A w) as ((Hp & _) & Hn & Hr).
  destruct e as [| [| |] | pos |]; cbn [handle_event];
    try destruct (osborne_open w); repeat split; assumption.
Qed.

Lemma after_events_bearing (A : Assets) (t : Tick) (w : World) :
  player_azimuth (after_events A t w) = player_azimuth w /\
  next_fire_time (after_events A t w) = next_fire_time w /\
  random (after_events A t w) = random w.
Proof.
  unfold after_events. revert w.
  induction (events t) as [| e es IH]; intros w; cbn [fold_left].
  - repeat split.
  - destruct (IH (handle_event A w e)) as (-> & -> & ->).
    apply handle_event_bearing.
Qed.

Lemma after_keys_bearing (t : Tick) (w : World) :
  0 <= player_azimuth w < 360 ->
  0 <= player_azimuth (after_keys t w) < 360 /\
  player_azimuth (after_keys t w)
  = match left_held t, right_held t with
    | true, true => player_azimuth w
    | true, false => (player_azimuth w - 1) mod 360
    | false, true => (player_azimuth w + 1) mod 360
    | false, false => player_azimuth w
    end.
Proof.
  intros Hv. unfold after_keys.
  destruct (left_held t), (right_held t);
    cbn [player_azimuth with_player_azimuth].
  - assert (E : ((player_azimuth w - 1) mod 360 + 1) mod 360
                = player_azimuth w).
    { destruct (Z.eq_dec (player_azimuth w) 0) as [-> | Hne];
        [reflexivity |].
      rewrite (Z.mod_small (player_azimuth w - 1)) by lia.
      replace (player_azimuth w - 1 + 1) with (player_azimuth w) by lia.
      apply Z.mod_small. lia. }
    rewrite E. split; [lia | reflexivity].
  - split; [apply Z.mod_pos_bound; lia | reflexivity].
  - split; [apply Z.mod_pos_bound; lia | reflexivity].
  - split; [lia | reflexivity].
Qed.

(** Only the arrow keys turn the view.  Over one iteration the bearing
    stays in [0, 360) and moves by one degree to the left or to the right,
    modulo 360, for the arrow that is held; with both arrows held, or none,
    it ends where it started. *)
Theorem frame_bearing (A : Assets) (t : Tick) (w : World) :
  0 <= player_azimuth w < 360 ->
  0 <= player_azimuth (frame A t w) < 360 /\
  player_azimuth (frame A t w)
  = match left_held t, right_held t with
    | true, true => player_azimuth w
    | true, false => (player_azimuth w - 1) mod 360
    | false, true => (player_azimuth w + 1) mod 360
    | false, false => player_azimuth w
    end.
Proof.
  intros Hv. rewrite frame_stages.
  cbn [player_azimuth draw_mid draw_far with_fires].
  destruct (after_spawn_controls A t (after_keys t (after_events A t w)))
    as ((-> & _) & _).
  destruct (after_events_bearing A t w) as (Hb & _).
  rewrite <- Hb in Hv |- *.
  apply after_keys_bearing. exact Hv.
Qed.

(** From bearing 0 the left arrow leads to 359. *)
Lemma frame_bearing_example :
  player_azimuth
    (frame (solid_assets Clear)
       {| current_time := 100; events := []; left_held := true;
          right_held := false |}
       (sample_world [] 0 (400, 300) (rng_of [])))
  = 359.
Proof.
  apply (frame_bearing (solid_assets Clear)
           {| current_time := 100; events := []; left_held := true;
              right_held := false |}
           (sample_world [] 0 (400, 300) (rng_of []))).
  vm_compute. split; [discriminate | reflexivity].
Defined.

(** ** The instrument gate *)

Lemma handle_event_closed (A : Assets) (w : World) (e : Event) :
  osborne_open w = false -> e <> KEYDOWN K_o ->
  osborne_open (handle_event A w e) = false /\
  reports (handle_event A w e) = reports w /\
  crosshair_pos (handle_event A w e) = crosshair_pos w /\
  fires (handle_event A w e) = fires w.
Proof.
  intros Hc Hne.
  destruct e as [| [| |] | pos |]; cbn [handle_event]; try rewrite Hc;
    try (repeat split; (reflexivity || assumption)).
  now elim Hne.
Qed.

Lemma after_events_closed (A : Assets) (t : Tick) (w : World) :
  osborne_open w = false -> ~ In (KEYDOWN K_o) (events t) ->
  osborne_open (after_events A t w) = false /\
  reports (after_events A t w) = reports w /\
  crosshair_pos (after_events A t w) = crosshair_pos w /\
  fires (after_events A t w) = fires w.
Proof.
  unfold after_events. revert w.
  induction (events t) as [| e es IH]; intros w Hc Hno; cbn [fold_left].
  - repeat split. exact Hc.
  - destruct (handle_event_closed A w e Hc) as (Hc' & Hr & Hx & Hf).
    { intros ->. apply Hno. now left. }
    destruct (IH (handle_event A w e) Hc') as (-> & -> & -> & ->).
    { intros Hin. apply Hno. now right. }
    repeat split; assumption.
Qed.

(** While the instrument is closed and is not toggled during the
    iteration, the space bar and the pointer have no effect: no record is
    appended, no fire is flagged by the events, and the aim point stays
    where it was. *)
Theorem closed_instrument_is_inert (A : Assets) (t : Tick) (w : World) :
  osborne_open w = false ->
  ~ In (KEYDOWN K_o) (events t) ->
  reports (frame A t w) = reports w /\
  crosshair_pos (frame A t w) = crosshair_pos w /\
  osborne_open (frame A t w) = false /\
  fires (after_events A t w) = fires w.
Proof.
  intros Hc Hno. rewrite frame_stages.
  cbn [reports crosshair_pos osborne_open draw_mid draw_far with_fires].
  destruct (after_spawn_controls A t (after_keys t (after_events A t w)))
    as ((_ & -> & -> & _) & ->).
  destruct (after_events_closed A t w Hc Hno) as (Ho & Hr & Hx & Hf).
  unfold after_keys.
  destruct (left_held t), (right_held t);
    cbn [reports crosshair_pos osborne_open with_player_azimuth];
    repeat split; assumption.
Qed.

(** With the instrument closed, the space bar over a fire reports
    nothing. *)
Lemma closed_instrument_is_inert_example :
  reports
    (frame (solid_assets Clear)
       {| current_time := 100; events := [KEYDOWN K_SPACE];
          left_held := false; right_held := false |}
       (with_osborne_open
          (sample_world [sample_fire 0 10] 0 (400, 10) (rng_of [])) false))
  = [].
Proof.
  apply (closed_instrument_is_inert (solid_assets Clear)
           {| current_time := 100; events := [KEYDOWN K_SPACE];
              left_held := false; right_held := false |}
           (with_osborne_open
              (sample_world [sample_fire 0 10] 0 (400, 10) (rng_of []))
              false)).
  - reflexivity.
  - intros [H | []]. discriminate.
Defined.

(** ** Spawn cadence *)

Lemma spawn_delay_range (A : Assets) (delay : Z) :
  4000 <= delay <= 8000 ->
  let q := float_value (fdiv (float_of_int delay) (waiting_time_scale A)) in
  match weather A with
  | Hot => (2000 <= q <= 4000)%Q
  | Windy => (2666 <= q <= 5334)%Q
  | Rainy => (8000 <= q <= 16000)%Q
  | Clear => (4000 <= q <= 8000)%Q
  end.
Proof.
  intros H. cbv zeta. unfold waiting_time_scale.
  destruct (weather A).
  - assert (E : spawn_delay_within (float_of_int 1) 4000 8000 delay = true)
      by (by_range_check (spawn_delay_within (float_of_int 1) 4000 8000)
            4001 4000).
    apply andb_true_iff in E as [E1 E2]. split; now apply Qle_bool_iff.
  - assert (E : spawn_delay_within (literal 1 2) 8000 16000 delay = true)
      by (by_range_check (spawn_delay_within (literal 1 2) 8000 16000)
            4001 4000).
    apply andb_true_iff in E as [E1 E2]. split; now apply Qle_bool_iff.
  - assert (E : spawn_delay_within (literal 3 2) 2666 5334 delay = true)
      by (by_range_check (spawn_delay_within (literal 3 2) 2666 5334)
            4001 4000).
    apply andb_true_iff in E as [E1 E2]. split; now apply Qle_bool_iff.
  - assert (E : spawn_delay_within (float_of_int 2) 2000 4000 delay = true)
      by (by_range_check (spawn_delay_within (float_of_int 2) 2000 4000)
            4001 4000).
    apply andb_true_iff in E as [E1 E2]. split; now apply Qle_bool_iff.
Qed.

Lemma after_keys_rest (t : Tick) (w : World) :
  next_fire_time (after_keys t w) = next_fire_time w /\
  random (after_keys t w) = random w /\
  fires (after_keys t w) = fires w /\
  reports (after_keys t w) = reports w /\
  running (after_keys t w) = running w.
Proof.
  unfold after_keys. destruct (left_held t), (right_held t); repeat split.
Qed.

(** A spawn cycle runs in an iteration exactly when the clock has reached
    [next_fire_time].  When it has not, the iteration draws no random
    number and leaves the schedule alone.  When it has, the next cycle is
    scheduled [delay / scale] ms after the clock, with [delay] drawn from
    [4000, 8000] whether or not a fire was spawned: between 2 and 4 seconds
    in hot weather, about 2.7 to 5.3 in wind, 4 to 8 when clear and 8 to 16
    in rain. *)
Theorem spawn_cadence (A : Assets) (t : Tick) (w : World) :
  (SFleb (next_fire_time w) (float_of_int (current_time t)) = false ->
   next_fire_time (frame A t w) = next_fire_time w /\
   random (frame A t w) = random w) /\
  (SFleb (next_fire_time w) (float_of_int (current_time t)) = true ->
   exists delay,
     4000 <= delay <= 8000 /\
     next_fire_time (frame A t w)
     = fadd (float_of_int (current_time t))
            (fdiv (float_of_int delay) (waiting_time_scale A)) /\
     let q := float_value (fdiv (float_of_int delay)
                                (waiting_time_scale A)) in
     match weather A with
     | Hot => (2000 <= q <= 4000)%Q
     | Windy => (2666 <= q <= 5334)%Q
     | Rainy => (8000 <= q <= 16000)%Q
     | Clear => (4000 <= q <= 8000)%Q
     end).
Proof.
  rewrite frame_stages.
  cbn [next_fire_time random draw_mid draw_far with_fires].
  destruct (after_events_bearing A t w) as (_ & Hn & Hr).
  destruct (after_keys_rest t (after_events A t w)) as (Hn' & Hr' & _).
  unfold after_spawn. rewrite Hn', Hn.
  split; intros Hdue; rewrite Hdue.
  - now rewrite Hn', Hn, Hr', Hr.
  - pose proof (randint_range 4000 8000
                  (random (generate_fire A (current_time t)
                             (after_keys t (after_events A t w))))
                  ltac:(lia)) as Hd.
    destruct (randint 4000 8000 _) as [delay r]. cbn [fst] in Hd.
    exists delay. split; [exact Hd |]. split; [reflexivity |].
    now apply spawn_delay_range.
Qed.

(** In rain, a cycle due at 5000 with the draw 4000 schedules the next one
    16000 ms later at the latest. *)
Lemma spawn_cadence_example :
  exists delay,
    4000 <= delay <= 8000 /\
    next_fire_time
      (frame (solid_assets Rainy)
         {| current_time := 5000; events := []; left_held := false;
            right_held := false |}
         (sample_world [] 0 (400, 300) (rng_of [12; 1; 5000; 10; 0])))
    = fadd (float_of_int 5000)
           (fdiv (float_of_int delay)
                 (waiting_time_scale (solid_assets Rainy))) /\
    (8000 <= float_value (fdiv (float_of_int delay)
                               (waiting_time_scale (solid_assets Rainy)))
     <= 16000)%Q.
Proof.
  apply (proj2 (spawn_cadence (solid_assets Rainy)
                  {| current_time := 5000; events := []; left_held := false;
                     right_held := false |}
                  (sample_world [] 0 (400, 300)
                     (rng_of [12; 1; 5000; 10; 0])))).
  vm_compute. reflexivity.
Defined.

(** ** What the loop keeps true *)

Lemma check_report_cross_azimuth_range (w : World) :
  0 <= check_report_cross_azimuth w < 360.
Proof.
  unfold check_report_cross_azimuth. apply Z.mod_pos_bound. lia.
Qed.

Lemma reported_count_filter (p : Fire -> bool) (fs : list Fire) :
  (reported_count (filter p fs) <= reported_count fs)%nat.
Proof.
  unfold reported_count. induction fs as [| f fs IH]; [apply le_n |].
  cbn [filter]. destruct (p f), (reported f) eqn:Hr; cbn [filter length];
    rewrite ?Hr; cbn [length]; lia.
Qed.

Lemma Forall_filter_keep {X : Type} (P : X -> Prop) (p : X -> bool)
    (l : list X) :
  Forall P l -> Forall P (filter p l).
Proof.
  intros H. apply Forall_forall. intros x Hx.
  apply filter_In in Hx as [Hx _]. revert x Hx. now apply Forall_forall.
Qed.

Lemma check_report_well_formed (A : Assets) (w : World) :
  well_formed_world A w -> well_formed_world A (check_report A w).
Proof.
  intros (Hv & Hf & Hr & Hc).
  destruct (check_report_cases A w)
    as [[-> _] | (pre & fire & post & Hsplit & _ & Hhit & ->)];
    [now repeat split |].
  unfold after_hit, well_formed_world;
    cbn [player_azimuth fires reports print with_reports with_fires].
  rewrite Hsplit in Hf, Hc.
  apply Forall_app in Hf as [Hpre Hpost].
  apply Forall_cons_iff in Hpost as [Hfire Hpost].
  split; [exact Hv |]. split; [| split].
  - apply Forall_app. split; [exact Hpre |].
    apply Forall_cons; [exact Hfire | exact Hpost].
  - apply Forall_app. split; [exact Hr |].
    apply Forall_cons; [apply check_report_cross_azimuth_range | constructor].
  - rewrite reported_count_flag by now apply (reportable_unreported A w).
    rewrite length_app; cbn [length]. lia.
Qed.

Lemma after_events_well_formed (A : Assets) (t : Tick) (w : World) :
  well_formed_world A w -> well_formed_world A (after_events A t w).
Proof.
  unfold after_events. revert w.
  induction (events t) as [| e es IH]; intros w Hw; cbn [fold_left];
    [exact Hw |].
  apply IH.
  destruct e as [| [| |] | pos |]; cbn [handle_event]; try exact Hw.
  - destruct (osborne_open w); [now apply check_report_well_formed | exact Hw].
  - destruct (osborne_open w); exact Hw.
Qed.

Lemma generate_fire_loop_spawned (A : Assets) (now : Z) (n : nat)
    (w : World) (f : Fire) :
  fires (generate_fire_loop A now n w) = fires w ++ [f] ->
  well_formed_fire A f /\ reported f = false /\ spawn_time f = now.
Proof.
  revert w; induction n as [| n IH]; intros w Hspawn.
  - cbn in Hspawn. apply (f_equal (@length Fire)) in Hspawn.
    rewrite length_app in Hspawn; cbn [length] in Hspawn. lia.
  - rewrite generate_fire_loop_step in Hspawn.
    destruct (attempt_has_terrain A (random w) 0).
    + cbv zeta in Hspawn.
      pose proof (randint_range 10000 50000 (skip_draws (random w) 2)
                    ltac:(lia)) as Hbase.
      destruct (randint 10000 50000 _) as [base r3]; cbn [fst] in Hbase.
      pose proof (Fire_init_fields A now (attempt_azimuth (random w) 0)
                    (attempt_distance (random w) 0) base r3) as Hf.
      destruct (Fire_init A now _ _ base r3) as [fire r4].
      cbv zeta in Hf; cbn [fst] in Hf.
      cbn [fires with_random with_fires] in Hspawn.
      apply app_inv_head in Hspawn. injection Hspawn as <-.
      destruct Hf as (Haz & Hd & Hl & Hr & Hs & Hoff & Hlife).
      split; [| now split].
      unfold well_formed_fire. rewrite Haz, Hd.
      pose proof (randint_range 0 359 (skip_draws (random w) (2 * 0))
                    ltac:(lia)) as Ha.
      split; [unfold attempt_azimuth; lia |].
      split; [unfold attempt_distance; apply choice_near_far |].
      split; [exact Hl |]. split; [exact Hoff |].
      now exists base.
    + apply (IH (with_random w (skip_draws (random w) 2))). exact Hspawn.
Qed.

Lemma generate_fire_well_formed (A : Assets) (now : Z) (w : World) :
  well_formed_world A w -> well_formed_world A (generate_fire A now w).
Proof.
  intros (Hv & Hf & Hr & Hc).
  destruct (generate_fire_effect A now w) as [_ Hrep].
  destruct (generate_fire_loop_controls A now (Z.to_nat max_attempts) w)
    as ((Hpa & _) & _).
  fold (generate_fire A now w) in Hpa.
  unfold well_formed_world. rewrite Hrep, Hpa.
  split; [exact Hv |].
  destruct (generate_fire_on_terrain_cases A now w)
    as [(fire & k & Hfs & _) | (Hfs & _)]; rewrite Hfs.
  - destruct (generate_fire_loop_spawned A now _ w fire Hfs) as (Hwf & Hun & _).
    split; [| split; [exact Hr |]].
    + apply Forall_app. split; [exact Hf | now constructor].
    + unfold reported_count in *. rewrite filter_app, length_app.
      cbn [filter]. rewrite Hun. cbn [length]. lia.
  - now repeat split.
Qed.

Lemma sweep_well_formed (A : Assets) (now : Z) (w : World) :
  well_formed_world A w ->
  well_formed_world A (draw_mid now (draw_far now w)).
Proof.
  intros (Hv & Hf & Hr & Hc). unfold well_formed_world.
  rewrite sweep_fires.
  cbn [player_azimuth reports draw_mid draw_far with_fires].
  split; [exact Hv |]. split; [now apply Forall_filter_keep |].
  split; [exact Hr |].
  apply Nat.le_trans with (reported_count (fires w)); [| exact Hc].
  apply reported_count_filter.
Qed.

Lemma frame_well_formed (A : Assets) (t : Tick) (w : World) :
  well_formed_world A w -> well_formed_world A (frame A t w).
Proof.
  intros Hw. rewrite frame_stages. apply sweep_well_formed.
  apply (after_events_well_formed A t) in Hw.
  assert (Hk : well_formed_world A (after_keys t (after_events A t w))).
  { destruct Hw as (Hv & Hf & Hr & Hc).
    destruct (after_keys_bearing t _ Hv) as [Hv' _].
    destruct (after_keys_rest t (after_events A t w))
      as (_ & _ & Ef & Er & _).
    unfold well_formed_world. rewrite Ef, Er. now repeat split. }
  unfold after_spawn. destruct (SFleb _ _); [| exact Hk].
  apply (generate_fire_well_formed A (current_time t)) in Hk.
  destruct (randint 4000 8000 _) as [delay r]. exact Hk.
Qed.

(** Whatever the input, the loop keeps the world well formed: the bearing
    stays in [0, 360); every live fire has a bearing in [0, 360), distance
    100 or 200 with the matching layer, an offset in [0, 80] and a life
    time of its weather-scaled base; every record holds a bearing in
    [0, 360); and the flagged live fires never outnumber the records. *)
Theorem main_loop_well_formed (A : Assets) (ticks : list Tick) (w : World) :
  well_formed_world A w -> well_formed_world A (main_loop A ticks w).
Proof.
  revert w; induction ticks as [| t ticks IH]; intros w Hw; [exact Hw |].
  cbn [main_loop]. destruct (running w); [| exact Hw].
  apply IH. now apply frame_well_formed.
Qed.

(** Starting with no fire and no record at bearing 0, two iterations with a
    spawn and a turn to the left. *)
Lemma main_loop_well_formed_example :
  well_formed_world (solid_assets Clear)
    (main_loop (solid_assets Clear)
       [{| current_time := 5000; events := [KEYDOWN K_SPACE];
           left_held := true; right_held := false |};
        {| current_time := 5016; events := []; left_held := true;
           right_held := false |}]
       (sample_world [] 0 (400, 300) (rng_of [12; 1; 5000; 10; 0]))).
Proof.
  apply main_loop_well_formed.
  split; [vm_compute; split; [discriminate | reflexivity] |].
  split; [constructor |]. split; [constructor | apply le_n].
Defined.

(** ** Leaving the loop *)

Lemma handle_event_running (A : Assets) (w : World) (e : Event) :
  (running w = false -> running (handle_event A w e) = false) /\
  (e = QUIT -> running (handle_event A w e) = false) /\
  (e <> QUIT -> running (handle_event A w e) = running w).
Proof.
  destruct (check_report_controls A w) as ((_ & _ & _ & Hrun) & _).
  destruct e as [| [| |] | pos |]; cbn [handle_event running with_running];
    try destruct (osborne_open w);
    repeat split; intros; try reflexivity; try assumption; try congruence.
Qed.

Lemma after_events_running (A : Assets) (t : Tick) (w : World) :
  (In QUIT (events t) \/ running w = false ->
   running (after_events A t w) = false) /\
  (~ In QUIT (events t) -> running (after_events A t w) = running w).
Proof.
  unfold after_events. revert w.
  induction (events t) as [| e es IH]; intros w; cbn [fold_left].
  - split; [intros [[] | H]; exact H | reflexivity].
  - destruct (handle_event_running A w e) as (Hstay & Hquit & Hother).
    destruct (IH (handle_event A w e)) as [IH1 IH2].
    split.
    + intros [[He | Hin] | Hoff]; apply IH1;
        [right; now apply Hquit | now left | right; now apply Hstay].
    + intros Hno. rewrite IH2 by (intros H; apply Hno; now right).
      apply Hother. intros ->. apply Hno. now left.
Qed.

Lemma frame_running (A : Assets) (t : Tick) (w : World) :
  running (frame A t w) = running (after_events A t w).
Proof.
  rewrite frame_stages. cbn [running draw_mid draw_far with_fires].
  destruct (after_spawn_controls A t (after_keys t (after_events A t w)))
    as ((_ & _ & _ & ->) & _).
  now destruct (after_keys_rest t (after_events A t w)) as (_ & _ & _ & _ & ->).
Qed.

(** A quit event ends the loop after the iteration that reads it: that
    iteration is completed, the ticks after it are never processed, and
    nothing in an iteration sets the flag again.  An iteration without a
    quit event leaves the flag as it was. *)
Theorem quit_ends_the_loop (A : Assets) (t : Tick) (rest : list Tick)
    (w : World) :
  (running w = false -> main_loop A (t :: rest) w = w) /\
  (running w = true -> In QUIT (events t) ->
   running (frame A t w) = false /\
   main_loop A (t :: rest) w = frame A t w) /\
  (~ In QUIT (events t) -> running (frame A t w) = running w).
Proof.
  split; [| split].
  - intros Hoff. cbn [main_loop]. now rewrite Hoff.
  - intros Hon Hquit.
    assert (Hstop : running (frame A t w) = false).
    { rewrite frame_running. apply after_events_running. now left. }
    split; [exact Hstop |].
    cbn [main_loop]. rewrite Hon.
    destruct rest as [| t' rest]; [reflexivity |].
    cbn [main_loop]. now rewrite Hstop.
  - intros Hno. rewrite frame_running. now apply after_events_running.
Qed.

(** After a quit at the first tick the second tick, a turn to the right, is
    not processed: the bearing is still 0. *)
Lemma quit_ends_the_loop_example :
  player_azimuth
    (main_loop (solid_assets Clear)
       [{| current_time := 100; events := [QUIT]; left_held := false;
           right_held := false |};
        {| current_time := 116; events := []; left_held := false;
           right_held := true |}]
       (sample_world [] 0 (400, 300) (rng_of [])))
  = 0.
Proof.
  destruct (proj1 (proj2 (quit_ends_the_loop (solid_assets Clear)
                            {| current_time := 100; events := [QUIT];
                               left_held := false; right_held := false |}
                            [{| current_time := 116; events := [];
                                left_held := false; right_held := true |}]
                            (sample_world [] 0 (400, 300) (rng_of [])))))
    as [_ ->].
  - reflexivity.
  - now left.
  - vm_compute. reflexivity.
Defined.
